(** * EV charging: energy needs, slot scheduler and SoC/cost simulator

    A shallow embedding of [src/ev_charging.py]: the three functions
    [calculate_energy_needs], [schedule_charging] and
    [compute_costs_and_soc], and the properties the specification states
    about them.

    Modelling conventions.
    - Python dicts ([cars_dict], [energy_needs], [schedule],
      [requirements_met], [hour_port_count], [price_dict]) are finite maps
      ([gmap]).  A [defaultdict] is a [gmap] read with a default; where the
      keys are observed later ([schedule], which the simulator iterates), a
      read that creates the key in Python inserts the default in the model.
    - [num_ports] counts ports and is a natural number; hours, days and
      [total_hours] are integers.
    - The nested [requirements] dict is iterated in insertion order, so it
      is an association list in that order.
    - Energy, power, prices and states of charge are Python floats.  They
      are modelled as exact rationals ([Q]): rounding is not modelled, so
      every comparison is the exact one.
    - A raised exception ([KeyError], [IndexError], [ValueError],
      [ZeroDivisionError]) is the result [None].
    - The console output ([print]) is not modelled. *)

From Stdlib Require Import QArith Lqa String Ascii Sorted.
From stdpp Require Import gmap strings list fin_maps.

Local Open Scope Z_scope.

(** ** Data model *)

(** An entry of [cars_dict]: the fields of a vehicle the core reads. *)
Record car := Car {
  capacity_kWh : Q;
  max_charge_rate_kW : Q
}.

(** The requirement dict appended by [calculate_energy_needs]. *)
Record requirement := Requirement {
  day : Z;
  deadline_hour : Z;
  energy_kwh : Q;
  max_rate_kw : Q;
  target_soc : Q;
  prior_day_start : Z;
  prior_day_end : Z
}.

(** [requirements]: vehicle -> day string -> time string -> target SoC. *)
Definition requirements_t : Type :=
  list (string * list (string * list (string * Q))).

(** A charging session [(hour, power_kw, port)]. *)
Definition session : Type := Z * Q * nat.

(** A candidate tuple [(car_id, req_index, energy_kwh, max_rate_kw)];
    [req_index] is [-1] for a vehicle without requirements. *)
Definition candidate : Type := string * Z * Q * Q.

(** The availability frame after [transpose]: its index holds the
    vehicles (rows, in order), its columns are absolute hours; a column is
    stored as the list of its cells, aligned with the index. *)
Record availability_t := Availability {
  av_index : list string;
  av_columns : gmap Z (list Z)
}.

(** ** Python primitives used by the source *)

(** Comparisons of numbers, as booleans. *)
Definition Qlt_bool (a b : Q) : bool := negb (Qle_bool b a).

(** [min(a, b)]: the first argument unless the second is smaller. *)
Definition py_min (a b : Q) : Q := if Qlt_bool b a then b else a.

(** [sum(...)]: a left fold that starts from 0. *)
Definition py_sum (l : list Q) : Q := fold_left Qplus l 0%Q.

(** [s.split(':')[0]]: the text before the first colon. *)
Fixpoint before_colon (s : string) : string :=
  match s with
  | EmptyString => EmptyString
  | String c r => if Ascii.eqb c ":" then EmptyString else String c (before_colon r)
  end.

Definition digit_of (c : ascii) : option Z :=
  let n := nat_of_ascii c in
  if ((48 <=? n) && (n <=? 57))%nat then Some (Z.of_nat (n - 48)) else None.

Fixpoint digits_value (acc : Z) (s : string) : option Z :=
  match s with
  | EmptyString => Some acc
  | String c r =>
      match digit_of c with
      | Some d => digits_value (10 * acc + d) r
      | None => None
      end
  end.

(** [int(s)] on a decimal literal: an optional sign followed by one or
    more ASCII digits.  The other spellings Python accepts (surrounding
    white space, underscores between digits) are not modelled and fail
    here like a malformed literal. *)
Definition py_int (s : string) : option Z :=
  match s with
  | EmptyString => None
  | String "-" EmptyString => None
  | String "+" EmptyString => None
  | String "-" r => Z.opp <$> digits_value 0 r
  | String "+" r => digits_value 0 r
  | _ => digits_value 0 s
  end.

(** [lst[i]] with Python's negative indices; [None] is [IndexError]. *)
Definition py_index {A} (l : list A) (i : Z) : option A :=
  if i <? 0
  then (if i + Z.of_nat (length l) <? 0 then None
        else l !! Z.to_nat (i + Z.of_nat (length l)))
  else l !! Z.to_nat i.

(** ** Energy-Need Deriver: [calculate_energy_needs] *)

Definition charge_efficiency : Q := (95 # 100)%Q.

(** The dict literal of lines 50-58. *)
Definition make_requirement (c : car) (initial_soc : Q)
    (new_day hour : Z) (target : Q) : requirement :=
  let deadline := (new_day + 1) * 24 + hour in
  let energy := ((target - initial_soc) * capacity_kWh c)%Q in
  let real_energy := (energy / charge_efficiency)%Q in
  {| day := new_day;
     deadline_hour := deadline;
     energy_kwh := real_energy;
     max_rate_kw := max_charge_rate_kW c;
     target_soc := target;
     prior_day_start := new_day * 24 + 18;
     prior_day_end := (new_day + 1) * 24 |}.

(** [energy_needs[car_id].append(r)] on a [defaultdict(list)]. *)
Definition append_requirement (car_id : string) (r : requirement)
    (en : gmap string (list requirement)) : gmap string (list requirement) :=
  <[car_id := default [] (en !! car_id) ++ [r]]> en.

(** The loop over [time_soc.items()] (lines 44-58). *)
Fixpoint derive_times (car_id : string) (c : car) (initial_soc : Q)
    (day_s : string) (time_soc : list (string * Q))
    (en : gmap string (list requirement)) : option (gmap string (list requirement)) :=
  match time_soc with
  | [] => Some en
  | (time, target) :: rest =>
      hour ← py_int (before_colon time);
      new_day ← py_int day_s;
      derive_times car_id c initial_soc day_s rest
        (append_requirement car_id (make_requirement c initial_soc new_day hour target) en)
  end.

(** The loop over [reqs.items()] (line 43). *)
Fixpoint derive_days (car_id : string) (c : car) (initial_soc : Q)
    (reqs : list (string * list (string * Q)))
    (en : gmap string (list requirement)) : option (gmap string (list requirement)) :=
  match reqs with
  | [] => Some en
  | (day_s, time_soc) :: rest =>
      en' ← derive_times car_id c initial_soc day_s time_soc en;
      derive_days car_id c initial_soc rest en'
  end.

(** The loop over [requirements.items()] (lines 39-42). *)
Fixpoint derive_cars (cars_dict : gmap string car) (initial_soc : Q)
    (requirements : requirements_t)
    (en : gmap string (list requirement)) : option (gmap string (list requirement)) :=
  match requirements with
  | [] => Some en
  | (car_id, reqs) :: rest =>
      match reqs with
      | [] => derive_cars cars_dict initial_soc rest en
      | _ :: _ =>
          c ← cars_dict !! car_id;
          en' ← derive_days car_id c initial_soc reqs en;
          derive_cars cars_dict initial_soc rest en'
      end
  end.

Definition calculate_energy_needs (cars_dict : gmap string car)
    (requirements : requirements_t) (initial_soc : Q)
    : option (gmap string (list requirement)) :=
  derive_cars cars_dict initial_soc requirements ∅.

(** ** Slot Scheduler: [schedule_charging] *)

(** The mutable state of the scheduling pass.  [requirements_met] is
    local to the function in the source; the model keeps it in the final
    state so that properties of the flags can be stated. *)
Record sched_state := SchedState {
  schedule : gmap string (list session);
  requirements_met : gmap string (list bool);
  hour_port_count : gmap Z nat
}.

(** [[False] * len(reqs)] for every vehicle of [energy_needs]. *)
Definition initial_state (energy_needs : gmap string (list requirement)) : sched_state :=
  {| schedule := ∅;
     requirements_met := (λ reqs, replicate (length reqs) false) <$> energy_needs;
     hour_port_count := ∅ |}.

(** [hour_port_count[hour]]: a missing hour reads as 0.  The key that
    the read creates is never observed and is not modelled. *)
Definition port_count (st : sched_state) (hour : Z) : nat :=
  default 0%nat (hour_port_count st !! hour).

(** [schedule[car_id]] read as a value. *)
Definition sessions_of (sched : gmap string (list session)) (car_id : string) : list session :=
  default [] (sched !! car_id).

(** [availability.index[availability[hour] == 1].tolist()]. *)
Definition available_cars (av : availability_t) (col : list Z) : list string :=
  map fst (List.filter (λ p : string * Z, p.2 =? 1) (zip (av_index av) col)).

(** [req['prior_day_start'] <= hour < req['prior_day_end']]. *)
Definition window_contains (r : requirement) (h : Z) : bool :=
  (prior_day_start r <=? h) && (h <? prior_day_end r).

(** The scan of lines 84-87: the first requirement that is not met and
    whose window contains [hour]; the outer [None] is a failed lookup in
    [requirements_met]. *)
Fixpoint first_unmet (hour : Z) (flags : option (list bool)) (i : nat)
    (reqs : list requirement) : option (option (nat * requirement)) :=
  match reqs with
  | [] => Some None
  | req :: rest =>
      fl ← flags;
      met ← fl !! i;
      if negb met && window_contains req hour
      then Some (Some (i, req))
      else first_unmet hour flags (S i) rest
  end.

(** The body of the loop over [available_cars] (lines 80-87): the tuples
    one vehicle contributes to [car_needs]. *)
Definition car_candidates (energy_needs : gmap string (list requirement))
    (cars_dict : gmap string car) (met : gmap string (list bool))
    (hour : Z) (car_id : string) : option (list candidate) :=
  match energy_needs !! car_id with
  | None =>
      c ← cars_dict !! car_id;
      Some [(car_id, -1, 0%Q, max_charge_rate_kW c)]
  | Some reqs =>
      found ← first_unmet hour (met !! car_id) 0 reqs;
      Some (match found with
            | Some (i, req) => [(car_id, Z.of_nat i, energy_kwh req, max_rate_kw req)]
            | None => []
            end)
  end.

Fixpoint build_car_needs (energy_needs : gmap string (list requirement))
    (cars_dict : gmap string car) (met : gmap string (list bool))
    (hour : Z) (available : list string) : option (list candidate) :=
  match available with
  | [] => Some []
  | car_id :: rest =>
      cs ← car_candidates energy_needs cars_dict met hour car_id;
      more ← build_car_needs energy_needs cars_dict met hour rest;
      Some (cs ++ more)
  end.

Definition cand_car (c : candidate) : string := c.1.1.1.
Definition cand_index (c : candidate) : Z := c.1.1.2.
Definition cand_energy (c : candidate) : Q := c.1.2.
Definition cand_rate (c : candidate) : Q := c.2.

(** [sorted(l, key=...)]: Python's sort is stable and compares keys with
    [<] only; on a total preorder every stable sort gives the same list,
    here a stable insertion sort. *)
Fixpoint insert_sorted {A} (lt : A → A → bool) (x : A) (l : list A) : list A :=
  match l with
  | [] => [x]
  | y :: l' => if lt y x then y :: insert_sorted lt x l' else x :: y :: l'
  end.

Definition py_sorted {A} (lt : A → A → bool) (l : list A) : list A :=
  foldr (insert_sorted lt) [] l.

(** Key [(x[2], -x[3])], compared as Python compares tuples: by the
    first components unless they are equal. *)
Definition needs_key_lt (a b : candidate) : bool :=
  if Qeq_bool (cand_energy a) (cand_energy b)
  then Qlt_bool (- cand_rate a) (- cand_rate b)
  else Qlt_bool (cand_energy a) (cand_energy b).

(** Key [-x[3]]. *)
Definition rate_key_lt (a b : candidate) : bool :=
  Qlt_bool (- cand_rate a) (- cand_rate b).

Definition cars_with_needs (car_needs : list candidate) : list candidate :=
  py_sorted needs_key_lt (List.filter (λ c, Qlt_bool 0 (cand_energy c)) car_needs).

Definition cars_without_needs (car_needs : list candidate) : list candidate :=
  py_sorted rate_key_lt (List.filter (λ c, Qeq_bool (cand_energy c) 0) car_needs).

(** Lines 90-92. *)
Definition prioritize (car_needs : list candidate) : list candidate :=
  cars_with_needs car_needs ++ cars_without_needs car_needs.

(** [sum(p for h, p, _ in sessions if start <= h < end)]. *)
Definition energy_delivered (r : requirement) (sessions : list session) : Q :=
  py_sum (map (λ s : session, s.1.2)
              (List.filter (λ s : session, window_contains r s.1.1) sessions)).

(** [lst[i] = x]; [None] is [IndexError]. *)
Definition py_setitem {A} (l : list A) (i : Z) (x : A) : option (list A) :=
  let j := if i <? 0 then i + Z.of_nat (length l) else i in
  if (0 <=? j) && (j <? Z.of_nat (length l))
  then Some (<[Z.to_nat j := x]> l) else None.

(** [requirements_met[car_id][req_index] = True]. *)
Definition mark_met (car_id : string) (req_index : Z) (st : sched_state) : option sched_state :=
  flags ← requirements_met st !! car_id;
  flags' ← py_setitem flags req_index true;
  Some {| schedule := schedule st;
          requirements_met := <[car_id := flags']> (requirements_met st);
          hour_port_count := hour_port_count st |}.

(** The read [schedule[car_id]] of line 106 creates the key. *)
Definition touch_schedule (car_id : string) (st : sched_state) : sched_state :=
  {| schedule := <[car_id := sessions_of (schedule st) car_id]> (schedule st);
     requirements_met := requirements_met st;
     hour_port_count := hour_port_count st |}.

(** Lines 117-118. *)
Definition add_session (car_id : string) (hour : Z) (power : Q) (port : nat)
    (st : sched_state) : sched_state :=
  {| schedule := <[car_id := sessions_of (schedule st) car_id ++ [(hour, power, port)]]> (schedule st);
     requirements_met := requirements_met st;
     hour_port_count := <[hour := S (port_count st hour)]> (hour_port_count st) |}.

(** The body of the assignment loop after the [break] test (lines
    98-118), for one candidate.  The lookup of the requirement is done
    once, before the sum; it cannot fail for a tuple built by
    [car_candidates]. *)
Definition assign_one (energy_needs : gmap string (list requirement))
    (hour : Z) (c : candidate) (st : sched_state) : option sched_state :=
  let '(car_id, req_index, energy, max_rate) := c in
  let port := S (port_count st hour) in
  if Qeq_bool energy 0 then
    Some (add_session car_id hour max_rate port st)
  else
    reqs ← energy_needs !! car_id;
    req ← py_index reqs req_index;
    let st1 := touch_schedule car_id st in
    let delivered := energy_delivered req (sessions_of (schedule st) car_id) in
    if Qle_bool energy delivered then
      mark_met car_id req_index st1
    else
      let remaining := (energy - delivered)%Q in
      let power := py_min max_rate remaining in
      st2 ← (if Qle_bool energy (delivered + power)
             then mark_met car_id req_index st1 else Some st1);
      Some (add_session car_id hour power port st2).

(** The loop of lines 95-118 over the candidates it is given. *)
Fixpoint assign_slots (energy_needs : gmap string (list requirement))
    (num_ports : nat) (hour : Z) (cands : list candidate)
    (st : sched_state) : option sched_state :=
  match cands with
  | [] => Some st
  | c :: rest =>
      if (num_ports <=? port_count st hour)%nat then Some st
      else
        st' ← assign_one energy_needs hour c st;
        assign_slots energy_needs num_ports hour rest st'
  end.

(** One iteration of the loop over hours (lines 72-118);
    [car_needs[:num_ports]] is [take num_ports]. *)
Definition schedule_hour (energy_needs : gmap string (list requirement))
    (av : availability_t) (cars_dict : gmap string car) (num_ports : nat)
    (st : sched_state) (hour : Z) : option sched_state :=
  match av_columns av !! hour with
  | None => Some st
  | Some col =>
      car_needs ← build_car_needs energy_needs cars_dict (requirements_met st)
                    hour (available_cars av col);
      assign_slots energy_needs num_ports hour
        (take num_ports (prioritize car_needs)) st
  end.

Fixpoint run_hours (energy_needs : gmap string (list requirement))
    (av : availability_t) (cars_dict : gmap string car) (num_ports : nat)
    (hours : list Z) (st : sched_state) : option sched_state :=
  match hours with
  | [] => Some st
  | h :: rest =>
      st' ← schedule_hour energy_needs av cars_dict num_ports st h;
      run_hours energy_needs av cars_dict num_ports rest st'
  end.

(** [range(18, total_hours)]. *)
Definition horizon (total_hours : Z) : list Z := seqZ 18 (total_hours - 18).

(** The whole pass, with the final flags. *)
Definition schedule_charging_state (energy_needs : gmap string (list requirement))
    (av : availability_t) (cars_dict : gmap string car)
    (num_ports : nat) (total_hours : Z) : option sched_state :=
  run_hours energy_needs av cars_dict num_ports (horizon total_hours)
    (initial_state energy_needs).

(** [schedule_charging]: the schedule alone is returned.  [price_dict]
    is a parameter the function never reads. *)
Definition schedule_charging (energy_needs : gmap string (list requirement))
    (av : availability_t) (price_dict : gmap Z Q) (cars_dict : gmap string car)
    (num_ports : nat) (total_hours : Z) : option (gmap string (list session)) :=
  schedule <$> schedule_charging_state energy_needs av cars_dict num_ports total_hours.

(** ** SoC/Cost Simulator: [compute_costs_and_soc] *)

(** [(day, hour, power_kw, current_soc)] and [(day, hour, cost)]. *)
Definition trace_record : Type := Z * Z * Q * Q.
Definition cost_record : Type := Z * Z * Q.

Record sim_state := SimState {
  current_soc : Q;
  hourly : list trace_record;
  costs : list cost_record
}.

(** [next((p for h, p, _ in sessions if h == hour), 0)]. *)
Definition session_power (sessions : list session) (hour : Z) : Q :=
  match List.find (λ s : session, s.1.1 =? hour) sessions with
  | Some s => s.1.2
  | None => 0%Q
  end.

(** [(hour - 18) // 24], capped at 5. *)
Definition day_index (hour : Z) : Z :=
  let d := (hour - 18) / 24 in if 5 <? d then 5 else d.

Definition fallback_price : Q := (40 # 100)%Q.

(** The body of the loop over hours (lines 137-158). *)
Definition simulate_hour (car_reqs : option (list requirement)) (capacity : Q)
    (price_dict : gmap Z Q) (initial_soc : Q) (sessions : list session)
    (s : sim_state) (hour : Z) : option sim_state :=
  let d := day_index hour in
  let soc1 :=
    if bool_decide (car_reqs = None) && (hour =? 18 + d * 24)
    then initial_soc else current_soc s in
  let soc2 :=
    if existsb (λ req, deadline_hour req =? hour) (default [] car_reqs)
    then initial_soc else soc1 in
  let power_kw := session_power sessions hour in
  let energy_to_battery := (power_kw * charge_efficiency)%Q in
  if Qeq_bool capacity 0 then None
  else
    let soc3 := py_min 1 (soc2 + energy_to_battery / capacity)%Q in
    Some {| current_soc := soc3;
            hourly := hourly s ++ [(d, hour, power_kw, soc3)];
            costs := if Qlt_bool 0 power_kw
                     then costs s ++ [(d, hour, (power_kw * default fallback_price (price_dict !! hour))%Q)]
                     else costs s |}.

Fixpoint simulate_hours (car_reqs : option (list requirement)) (capacity : Q)
    (price_dict : gmap Z Q) (initial_soc : Q) (sessions : list session)
    (hours : list Z) (s : sim_state) : option sim_state :=
  match hours with
  | [] => Some s
  | h :: rest =>
      s' ← simulate_hour car_reqs capacity price_dict initial_soc sessions s h;
      simulate_hours car_reqs capacity price_dict initial_soc sessions rest s'
  end.

(** [range(18, 168)]: the simulator's own, fixed horizon. *)
Definition sim_hours : list Z := seqZ 18 150.

(** The body of the loop over [schedule.items()] (lines 132-158). *)
Definition simulate_car (cars_dict : gmap string car) (price_dict : gmap Z Q)
    (energy_needs : gmap string (list requirement)) (initial_soc : Q)
    (car_id : string) (sessions : list session) : option sim_state :=
  c ← cars_dict !! car_id;
  simulate_hours (energy_needs !! car_id) (capacity_kWh c) price_dict initial_soc
    sessions sim_hours
    {| current_soc := initial_soc; hourly := []; costs := [] |}.

(** [compute_costs_and_soc]: [(cost_summary, final_soc, hourly_soc)].
    [cost_summary] and [hourly_soc] are [defaultdict]s: a vehicle is a key
    once something was appended for it. *)
Definition compute_costs_and_soc (sched : gmap string (list session))
    (cars_dict : gmap string car) (price_dict : gmap Z Q)
    (energy_needs : gmap string (list requirement)) (initial_soc : Q)
    : option (gmap string (list cost_record) * gmap string Q * gmap string (list trace_record)) :=
  let final_soc : gmap string Q := (λ _, initial_soc) <$> cars_dict in
  let sims : gmap string (option sim_state) :=
    map_imap (λ car_id sessions,
      Some (simulate_car cars_dict price_dict energy_needs initial_soc car_id sessions)) sched in
  if decide (map_Forall (λ _ r, is_Some r) sims) then
    let finished : gmap string sim_state := omap id sims in
    Some (omap (λ s, match costs s with [] => None | _ => Some (costs s) end) finished,
          final_soc,
          omap (λ s, match hourly s with [] => None | _ => Some (hourly s) end) finished)
  else None.

(** ** Scenarios of the specification *)

(** An availability frame in which every listed vehicle is available
    (cell 1) at every listed hour. *)
Definition full_availability (index : list string) (hours : list Z) : availability_t :=
  Availability index (list_to_map (map (λ h, (h, map (λ _, 1) index)) hours)).

(** One vehicle: capacity 50 kWh, max rate 11 kW, initial SoC 0.2, one
    requirement on day 0, target 0.8 by "07:00"; one port, a week. *)
Module OneVehicle.
Definition cars_dict : gmap string car := {[ "car1" := Car 50 11 ]}.
Definition requirements : requirements_t := [("car1", [("0", [("07:00", (8 # 10)%Q)])])].
Definition initial_soc : Q := (2 # 10)%Q.
Definition availability : availability_t := full_availability ["car1"] (seqZ 0 168).
Definition num_ports : nat := 1.
Definition total_hours : Z := 168.
(** The values the three functions compute in the scenario. *)
Definition energy_needs : gmap string (list requirement) :=
  default ∅ (calculate_energy_needs cars_dict requirements initial_soc).
Definition final_state : sched_state :=
  default (initial_state ∅)
    (schedule_charging_state energy_needs availability cars_dict num_ports total_hours).
Definition simulation
    : gmap string (list cost_record) * gmap string Q * gmap string (list trace_record) :=
  default (∅, ∅, ∅)
    (compute_costs_and_soc (schedule final_state) cars_dict ∅ energy_needs initial_soc).
End OneVehicle.

(** Two vehicles and one port at hour 18: "A" still needs 5 kWh and
    charges at up to 7 kW, "B" has no requirement and charges at 22 kW. *)
Module Duel.
Definition cars_dict : gmap string car := {[ "A" := Car 50 7; "B" := Car 50 22 ]}.
Definition energy_needs : gmap string (list requirement) :=
  {[ "A" := [ {| day := 0; deadline_hour := 31; energy_kwh := 5; max_rate_kw := 7;
                 target_soc := (3 # 10)%Q; prior_day_start := 18; prior_day_end := 24 |} ] ]}.
Definition availability (index : list string) : availability_t :=
  full_availability index [18].
End Duel.

(** Two vehicles and one port on the first evening: "A" has two
    requirements on day 0 (0.8 by "07:00", 0.5 by "08:00"), "B" has none.
    The energy delivered for the first requirement of "A" already covers
    the second. *)
Module Backfill.
Definition cars_dict : gmap string car := {[ "A" := Car 50 11; "B" := Car 50 22 ]}.
Definition requirements : requirements_t :=
  [("A", [("0", [("07:00", (8 # 10)%Q); ("08:00", (5 # 10)%Q)])])].
Definition initial_soc : Q := (2 # 10)%Q.
Definition availability : availability_t := full_availability ["A"; "B"] (seqZ 0 24).
Definition num_ports : nat := 1.
Definition total_hours : Z := 24.
End Backfill.

(** One vehicle whose only target equals the initial SoC: its energy
    need is exactly 0. *)
Module ZeroNeed.
Definition cars_dict : gmap string car := {[ "Z" := Car 50 11 ]}.
Definition requirements : requirements_t := [("Z", [("0", [("07:00", (2 # 10)%Q)])])].
Definition initial_soc : Q := (2 # 10)%Q.
Definition availability : availability_t := full_availability ["Z"] (seqZ 0 24).
Definition energy_needs : gmap string (list requirement) :=
  default ∅ (calculate_energy_needs cars_dict requirements initial_soc).
Definition the_requirement : requirement :=
  make_requirement (Car 50 11) initial_soc 0 7 (2 # 10)%Q.
Definition later_state : sched_state :=
  default (initial_state ∅)
    (run_hours energy_needs availability cars_dict 1 [18; 19; 20] (initial_state energy_needs)).
End ZeroNeed.

(** One vehicle whose target, 0.1, lies in [0, 1] but below the initial
    SoC 0.2. *)
Module LowTarget.
Definition cars_dict : gmap string car := {[ "car1" := Car 50 11 ]}.
Definition requirements : requirements_t := [("car1", [("0", [("07:00", (1 # 10)%Q)])])].
Definition initial_soc : Q := (2 # 10)%Q.
End LowTarget.

(** One vehicle of the roster, without requirement, that is never
    available (every cell of its row is 0). *)
Module Idle.
Definition cars_dict : gmap string car := {[ "car1" := Car 50 11 ]}.
Definition availability : availability_t :=
  Availability ["car1"] (list_to_map (map (λ h, (h, [0])) (seqZ 0 168))).
End Idle.

(** * Properties *)

(** ** Energy-Need Deriver *)

Section Deriver.
Context (cars_dict : gmap string car) (initial_soc : Q).

(** The requirement the specification describes for an entry
    (day [d], hour of day [H], target [t]) of a vehicle [c]. *)
Definition spec_requirement (c : car) (d H : Z) (t : Q) (r : requirement) : Prop :=
  day r = d ∧
  deadline_hour r = (d + 1) * 24 + H ∧
  energy_kwh r = ((t - initial_soc) * capacity_kWh c / (95 # 100))%Q ∧
  max_rate_kw r = max_charge_rate_kW c ∧
  target_soc r = t ∧
  prior_day_start r = d * 24 + 18 ∧
  prior_day_end r = (d + 1) * 24.

(** The entry (day string, time string, target) of vehicle [car_id] is
    turned into requirement [r]. *)
Definition emits (car_id : string) (e : string * string * Q) (r : requirement) : Prop :=
  ∃ c d H,
    cars_dict !! car_id = Some c ∧
    py_int e.1.1 = Some d ∧
    py_int (before_colon e.1.2) = Some H ∧
    spec_requirement c d H e.2 r.

Definition times_entries (day_s : string) (time_soc : list (string * Q))
    : list (string * string * Q) :=
  map (λ p, (day_s, p.1, p.2)) time_soc.

Definition days_entries (reqs : list (string * list (string * Q)))
    : list (string * string * Q) :=
  flat_map (λ p, times_entries p.1 p.2) reqs.

(** All the entries of one vehicle, in iteration order. *)
Definition entries_of (car_id : string) (requirements : requirements_t)
    : list (string * string * Q) :=
  flat_map (λ p, if decide (p.1 = car_id) then days_entries p.2 else []) requirements.

(** What a run of one of the three loops adds for vehicle [k], given
    the entries [es] it iterates over for [k]. *)
Definition extends (k : string) (es : list (string * string * Q))
    (en en' : gmap string (list requirement)) : Prop :=
  ∃ new, Forall2 (emits k) es new ∧
         default [] (en' !! k) = default [] (en !! k) ++ new ∧
         (new = [] → en' !! k = en !! k).

Lemma extends_refl k en : extends k [] en en.
Proof. exists []. rewrite app_nil_r. auto. Qed.

Lemma extends_trans k es1 es2 en1 en2 en3 :
  extends k es1 en1 en2 → extends k es2 en2 en3 → extends k (es1 ++ es2) en1 en3.
Proof.
  intros (n1 & F1 & E1 & K1) (n2 & F2 & E2 & K2).
  exists (n1 ++ n2). split; [by apply Forall2_app|]. split.
  - by rewrite E2, E1, app_assoc.
  - intros [-> ->]%app_eq_nil. rewrite K2, K1; auto.
Qed.

Lemma extends_append car_id c d H day_s time t en :
  cars_dict !! car_id = Some c →
  py_int day_s = Some d → py_int (before_colon time) = Some H →
  ∀ k, extends k (if decide (car_id = k) then [(day_s, time, t)] else []) en
         (append_requirement car_id (make_requirement c initial_soc d H t) en).
Proof.
  intros Hc Hd HH k. unfold append_requirement. case_decide as E.
  - subst k. exists [make_requirement c initial_soc d H t]. split; [|split].
    + constructor; [|constructor]. exists c, d, H. repeat split; auto.
    + by rewrite lookup_insert_eq.
    + discriminate.
  - exists []. rewrite lookup_insert_ne by done. rewrite app_nil_r. auto.
Qed.

Lemma derive_times_extends car_id c day_s time_soc en en' :
  cars_dict !! car_id = Some c →
  derive_times car_id c initial_soc day_s time_soc en = Some en' →
  ∀ k, extends k (if decide (car_id = k) then times_entries day_s time_soc else []) en en'.
Proof.
  intros Hc. revert en. induction time_soc as [|[time t] rest IH]; intros en Hrun k; simpl in Hrun.
  - injection Hrun as <-. destruct (decide _); apply extends_refl.
  - destruct (py_int (before_colon time)) as [H|] eqn:EH; [|done].
    destruct (py_int day_s) as [d|] eqn:Ed; [|done]. simpl in Hrun.
    pose proof (extends_append car_id c d H day_s time t en Hc Ed EH k) as X.
    pose proof (IH _ Hrun k) as Y.
    pose proof (extends_trans _ _ _ _ _ _ X Y) as Z.
    destruct (decide (car_id = k)); exact Z.
Qed.

Lemma derive_days_extends car_id c reqs en en' :
  cars_dict !! car_id = Some c →
  derive_days car_id c initial_soc reqs en = Some en' →
  ∀ k, extends k (if decide (car_id = k) then days_entries reqs else []) en en'.
Proof.
  intros Hc. revert en. induction reqs as [|[day_s ts] rest IH]; intros en Hrun k; simpl in Hrun.
  - injection Hrun as <-. destruct (decide _); apply extends_refl.
  - destruct (derive_times car_id c initial_soc day_s ts en) as [en1|] eqn:E1; [|done].
    simpl in Hrun.
    pose proof (derive_times_extends _ _ _ _ _ _ Hc E1 k) as X.
    pose proof (IH _ Hrun k) as Y.
    pose proof (extends_trans _ _ _ _ _ _ X Y) as Z.
    destruct (decide (car_id = k)); exact Z.
Qed.

Lemma derive_cars_extends requirements en en' :
  derive_cars cars_dict initial_soc requirements en = Some en' →
  ∀ k, extends k (entries_of k requirements) en en'.
Proof.
  revert en. induction requirements as [|[car_id reqs] rest IH]; intros en Hrun k; simpl in Hrun.
  - injection Hrun as <-. apply extends_refl.
  - unfold entries_of. simpl. fold (entries_of k rest).
    destruct reqs as [|r0 reqs].
    + replace (if decide (car_id = k) then days_entries [] else []) with
        (@nil (string * string * Q)) by (by destruct (decide _)).
      simpl. by apply IH.
    + destruct (cars_dict !! car_id) as [c|] eqn:Ec; [|done].
      cbn -[derive_days] in Hrun.
      destruct (derive_days car_id c initial_soc (r0 :: reqs) en) as [en1|] eqn:E1; [|done].
      simpl in Hrun.
      eapply extends_trans; [|by apply IH].
      by apply (derive_days_extends _ _ _ _ _ Ec E1 k).
Qed.




End Deriver.

(** The hour of a time string is the number written before its first colon. *)
Lemma before_colon_app (s rest : string) :
  (∀ c, In c (list_ascii_of_string s) → c ≠ ":"%char) →
  before_colon (s +:+ String ":" rest) = s.
Proof.
  induction s as [|a s IH]; intros Hs; simpl.
  - reflexivity.
  - destruct (Ascii.eqb a ":") eqn:E.
    + apply Ascii.eqb_eq in E. exfalso. apply (Hs a); [left; reflexivity | exact E].
    + f_equal. apply IH. intros c Hc. apply Hs. by right.
Qed.

Example time_of_day_examples :
  py_int (before_colon "07:00") = Some 7 ∧
  py_int (before_colon "7:30") = Some 7 ∧
  py_int (before_colon "18:45:10") = Some 18 ∧
  py_int (before_colon "seven:00") = None.
Proof. repeat split. Qed.

(** C6. For every vehicle, the requirements the Energy-Need Deriver emits
    are, in order, those of the vehicle's entries: an entry with day [d],
    a time string whose hour is [H] and target SoC [t] gives deadline hour
    [(d+1)*24 + H], energy need [(t - initial_soc) * capacity / 0.95] and
    eligibility window [[d*24+18, (d+1)*24)]; a vehicle without entries is
    not a key of the result. *)
Theorem C6_deriver_emits_requirements cars_dict requirements initial_soc en :
  calculate_energy_needs cars_dict requirements initial_soc = Some en →
  ∀ car_id,
    Forall2 (emits cars_dict initial_soc car_id)
      (entries_of car_id requirements) (default [] (en !! car_id)) ∧
    (entries_of car_id requirements = [] → en !! car_id = None).
Proof.
  intros Hrun car_id.
  destruct (derive_cars_extends _ _ _ _ _ Hrun car_id) as (new & F & E & K).
  rewrite lookup_empty in E, K. simpl in E. rewrite E. split; [done|].
  intros Hnil. rewrite Hnil in F. apply Forall2_nil_inv_l in F. auto.
Qed.


Lemma Forall2_emitted {A B} (P : A → B → Prop) (l : list A) (k : list B) (y : B) :
  Forall2 P l k → y ∈ k → ∃ x, x ∈ l ∧ P x y.
Proof.
  induction 1 as [|a b l k Hab _ IH]; intros Hy.
  - by apply elem_of_nil in Hy.
  - apply elem_of_cons in Hy as [->|Hy].
    + exists a. split; [left | done].
    + destruct (IH Hy) as (x & Hx & Pxy). exists x. split; [by right | done].
Qed.

Lemma energy_nonneg (t initial_soc capacity : Q) :
  (initial_soc <= t)%Q → (0 <= capacity)%Q →
  (0 <= (t - initial_soc) * capacity / (95 # 100))%Q.
Proof.
  intros Ht Hc. unfold Qdiv. apply Qmult_le_0_compat.
  - apply Qmult_le_0_compat; [|done].
    unfold Qminus. rewrite <- (Qplus_opp_r initial_soc).
    apply Qplus_le_compat; [done | apply Qle_refl].
  - discriminate.
Qed.

(** C7 (amended). Every requirement the Energy-Need Deriver produces has
    a non-negative energy need when each target SoC is at least the
    initial SoC and each battery capacity is non-negative. *)
Theorem C7_energy_need_nonnegative cars_dict requirements initial_soc en :
  calculate_energy_needs cars_dict requirements initial_soc = Some en →
  (∀ car_id c, cars_dict !! car_id = Some c → (0 <= capacity_kWh c)%Q) →
  (∀ car_id e, e ∈ entries_of car_id requirements → (initial_soc <= e.2)%Q) →
  ∀ car_id reqs r, en !! car_id = Some reqs → r ∈ reqs → (0 <= energy_kwh r)%Q.
Proof.
  intros Hrun Hcap Htarget car_id reqs r Hreqs Hr.
  destruct (derive_cars_extends _ _ _ _ _ Hrun car_id) as (new & F & E & _).
  rewrite lookup_empty, Hreqs in E. simpl in E. subst new.
  destruct (Forall2_emitted _ _ _ _ F Hr) as (e & He & c & d & H & Hc & _ & _ & Hspec).
  destruct Hspec as (_ & _ & -> & _).
  apply energy_nonneg; [by eapply Htarget | by eapply Hcap].
Qed.

(** ** SoC/Cost Simulator *)

Definition record_hour (r : trace_record) : Z := r.1.1.2.
Definition record_day (r : trace_record) : Z := r.1.1.1.
Definition record_power (r : trace_record) : Q := r.1.2.

(** One record per simulated hour, in order, with the hour's day index
    and scheduled power. *)
Definition trace_of (sessions : list session) (hours : list Z) (tr : list trace_record) : Prop :=
  map record_hour tr = hours ∧
  Forall (λ r, record_day r = day_index (record_hour r) ∧
               record_power r = session_power sessions (record_hour r)) tr.

Lemma simulate_hours_trace car_reqs capacity price_dict initial_soc sessions hours s s' :
  simulate_hours car_reqs capacity price_dict initial_soc sessions hours s = Some s' →
  ∃ tr, hourly s' = hourly s ++ tr ∧ trace_of sessions hours tr.
Proof.
  revert s. induction hours as [|h rest IH]; intros s Hrun; simpl in Hrun.
  - injection Hrun as <-. exists []. rewrite app_nil_r. repeat split. constructor.
  - destruct (simulate_hour car_reqs capacity price_dict initial_soc sessions s h)
      as [s1|] eqn:E1; [|done].
    simpl in Hrun. destruct (IH _ Hrun) as (tr & Htr & Hhours & Hall).
    unfold simulate_hour in E1.
    destruct (Qeq_bool capacity 0); [done|]. injection E1 as <-. simpl in Htr.
    eexists (_ :: tr). split; [by rewrite Htr, <- app_assoc|].
    split; [simpl; by rewrite Hhours|]. constructor; [by split | done].
Qed.

Lemma simulate_hours_total car_reqs capacity price_dict initial_soc sessions hours s :
  Qeq_bool capacity 0 = false →
  is_Some (simulate_hours car_reqs capacity price_dict initial_soc sessions hours s).
Proof.
  intros Hcap. revert s. induction hours as [|h rest IH]; intros s; simpl.
  - eauto.
  - unfold simulate_hour. rewrite Hcap. simpl. apply IH.
Qed.

(** The simulator returns (no exception) when every scheduled vehicle is
    in the roster with a non-zero capacity. *)
Lemma compute_costs_and_soc_total sched cars_dict price_dict energy_needs initial_soc :
  (∀ car_id sessions, sched !! car_id = Some sessions →
     ∃ c, cars_dict !! car_id = Some c ∧ Qeq_bool (capacity_kWh c) 0 = false) →
  is_Some (compute_costs_and_soc sched cars_dict price_dict energy_needs initial_soc).
Proof.
  intros Hok. unfold compute_costs_and_soc. case_decide as Hall; [eauto|].
  exfalso. apply Hall. apply map_Forall_lookup. intros car_id r Hr.
  rewrite map_lookup_imap in Hr.
  destruct (sched !! car_id) as [sessions|] eqn:Es; [|done]. simpl in Hr.
  injection Hr as <-. destruct (Hok _ _ Es) as (c & Hc & Hcap).
  unfold simulate_car. rewrite Hc. by apply simulate_hours_total.
Qed.

(** What the simulator's result holds for a vehicle of the schedule. *)
Lemma compute_costs_and_soc_car sched cars_dict price_dict energy_needs initial_soc
    cost_summary final_soc hourly_soc car_id :
  compute_costs_and_soc sched cars_dict price_dict energy_needs initial_soc
    = Some (cost_summary, final_soc, hourly_soc) →
  final_soc = ((λ _, initial_soc) <$> cars_dict) ∧
  match sched !! car_id with
  | None => hourly_soc !! car_id = None ∧ cost_summary !! car_id = None
  | Some sessions =>
      ∃ s, simulate_car cars_dict price_dict energy_needs initial_soc car_id sessions = Some s ∧
           hourly_soc !! car_id = Some (hourly s) ∧ hourly s ≠ []
  end.
Proof.
  unfold compute_costs_and_soc. case_decide as Hall; [|done].
  intros [= <- <- <-]. split; [done|].
  rewrite !lookup_omap, map_lookup_imap.
  destruct (sched !! car_id) as [sessions|] eqn:Es; simpl; [|done].
  destruct (simulate_car cars_dict price_dict energy_needs initial_soc car_id sessions)
    as [s|] eqn:Esim.
  - exists s. split; [done|]. simpl.
    unfold simulate_car in Esim. destruct (cars_dict !! car_id) as [c|]; [|done].
    apply simulate_hours_trace in Esim as (tr & Htr & Hhours & _).
    simpl in Htr. rewrite Htr.
    by destruct tr.
  - exfalso. rewrite map_Forall_lookup in Hall.
    specialize (Hall car_id None). rewrite map_lookup_imap, Es in Hall. simpl in Hall.
    rewrite Esim in Hall. destruct (Hall eq_refl) as [? [=]].
Qed.

(** C8 (amended). The simulator produces a trace exactly for the
    vehicles that are keys of the schedule, and that trace holds one
    record (day, hour, power, soc) for every hour of the fixed range
    [[18, 168)], in increasing order, whatever horizon the scheduler was
    run with; a vehicle of the roster that is not a key of the schedule
    gets no trace. *)
Theorem C8_trace_for_scheduled_vehicles sched cars_dict price_dict energy_needs
    initial_soc cost_summary final_soc hourly_soc :
  compute_costs_and_soc sched cars_dict price_dict energy_needs initial_soc
    = Some (cost_summary, final_soc, hourly_soc) →
  ∀ car_id,
    match sched !! car_id with
    | None => hourly_soc !! car_id = None
    | Some sessions =>
        ∃ tr, hourly_soc !! car_id = Some tr ∧ trace_of sessions (seqZ 18 150) tr
    end.
Proof.
  intros Hrun car_id.
  destruct (compute_costs_and_soc_car _ _ _ _ _ _ _ _ car_id Hrun) as [_ Hcar].
  destruct (sched !! car_id) as [sessions|]; [|by destruct Hcar].
  destruct Hcar as (s & Hsim & Hlook & _). exists (hourly s). split; [done|].
  unfold simulate_car in Hsim. destruct (cars_dict !! car_id) as [c|]; [|done].
  apply simulate_hours_trace in Hsim as (tr & Htr & Htrace).
  simpl in Htr. by rewrite Htr.
Qed.

(** C9. The "final SoC" map the simulator returns gives every vehicle of
    the roster the initial SoC, and has no other key, whatever the
    schedule is. *)
Theorem C9_final_soc_is_initial sched cars_dict price_dict energy_needs
    initial_soc cost_summary final_soc hourly_soc :
  compute_costs_and_soc sched cars_dict price_dict energy_needs initial_soc
    = Some (cost_summary, final_soc, hourly_soc) →
  ∀ car_id,
    final_soc !! car_id = (λ _ : car, initial_soc) <$> (cars_dict !! car_id).
Proof.
  intros Hrun car_id.
  destruct (compute_costs_and_soc_car _ _ _ _ _ _ _ _ car_id Hrun) as [-> _].
  by rewrite lookup_fmap.
Qed.

(** ** Slot Scheduler: the priority order *)

Section StableSort.
Context {A : Type} (lt : A → A → bool) (before : A → A → Prop).
Hypothesis lt_false : ∀ a b, lt b a = false ↔ before a b.
Hypothesis before_total : ∀ a b, before a b ∨ before b a.
Hypothesis before_trans : ∀ a b c, before a b → before b c → before a c.

Lemma insert_sorted_perm x l : insert_sorted lt x l ≡ₚ x :: l.
Proof.
  induction l as [|y l IH]; simpl; [done|].
  destruct (lt y x); [|done]. rewrite IH. apply Permutation_swap.
Qed.

Lemma py_sorted_perm l : py_sorted lt l ≡ₚ l.
Proof.
  induction l as [|x l IH]; simpl; [done|].
  fold (py_sorted lt l). by rewrite insert_sorted_perm, IH.
Qed.

Lemma insert_sorted_sorted x l :
  StronglySorted before l → StronglySorted before (insert_sorted lt x l).
Proof.
  induction 1 as [|y l Hs IH Hy]; simpl.
  - repeat constructor.
  - destruct (lt y x) eqn:E.
    + constructor; [done|].
      rewrite insert_sorted_perm. constructor; [|done].
      destruct (before_total y x) as [|Hxy]; [done|].
      apply lt_false in Hxy. congruence.
    + apply lt_false in E. constructor; [by constructor|].
      constructor; [done|].
      eapply Forall_impl; [exact Hy|]. intros z Hz. by eapply before_trans.
Qed.

Lemma py_sorted_sorted l : StronglySorted before (py_sorted lt l).
Proof.
  induction l as [|x l IH]; simpl; [constructor|]. by apply insert_sorted_sorted.
Qed.
End StableSort.

(** Ascending energy need, ties by descending max rate. *)
Definition needs_before (a b : candidate) : Prop :=
  (cand_energy a < cand_energy b)%Q ∨
  (cand_energy a == cand_energy b ∧ cand_rate b <= cand_rate a)%Q.

(** Descending max rate. *)
Definition rate_before (a b : candidate) : Prop :=
  (cand_rate b <= cand_rate a)%Q.

Lemma Qlt_bool_true (a b : Q) : Qlt_bool a b = true ↔ (a < b)%Q.
Proof.
  unfold Qlt_bool. rewrite negb_true_iff. split.
  - intros H. apply Qnot_le_lt. intros Hle. apply Qle_bool_iff in Hle. congruence.
  - intros H. destruct (Qle_bool b a) eqn:E; [|done].
    apply Qle_bool_iff in E. lra.
Qed.

Lemma Qlt_bool_false (a b : Q) : Qlt_bool a b = false ↔ (b <= a)%Q.
Proof.
  unfold Qlt_bool. rewrite negb_false_iff. apply Qle_bool_iff.
Qed.

Lemma Qle_bool_false (a b : Q) : Qle_bool a b = false ↔ (b < a)%Q.
Proof.
  rewrite <- Qlt_bool_true. unfold Qlt_bool. by destruct (Qle_bool a b).
Qed.

Lemma Qeq_bool_false (a b : Q) : Qeq_bool a b = false ↔ ¬ (a == b)%Q.
Proof.
  split.
  - intros H E. apply Qeq_bool_iff in E. congruence.
  - intros H. destruct (Qeq_bool a b) eqn:E; [|done].
    apply Qeq_bool_iff in E. contradiction.
Qed.

Lemma needs_key_lt_false (a b : candidate) :
  needs_key_lt b a = false ↔ needs_before a b.
Proof.
  unfold needs_key_lt, needs_before.
  destruct (Qeq_bool (cand_energy b) (cand_energy a)) eqn:E.
  - apply Qeq_bool_iff in E. rewrite Qlt_bool_false. split; [|intros [|[]]]; lra.
  - apply Qeq_bool_false in E. rewrite Qlt_bool_false. split; [|intros [|[]]]; lra.
Qed.

Lemma needs_before_total (a b : candidate) : needs_before a b ∨ needs_before b a.
Proof.
  unfold needs_before.
  destruct (Q_dec (cand_energy a) (cand_energy b)) as [[|]|]; [auto | auto |].
  destruct (Qlt_le_dec (cand_rate a) (cand_rate b)).
  - right. right. split; lra.
  - left. right. split; lra.
Qed.

Lemma needs_before_trans (a b c : candidate) :
  needs_before a b → needs_before b c → needs_before a c.
Proof. unfold needs_before. intros [|[]] [|[]]; [left | left | left | right; split]; lra. Qed.

Lemma rate_key_lt_false (a b : candidate) :
  rate_key_lt b a = false ↔ rate_before a b.
Proof. unfold rate_key_lt, rate_before. rewrite Qlt_bool_false. split; lra. Qed.

Lemma rate_before_total (a b : candidate) : rate_before a b ∨ rate_before b a.
Proof.
  unfold rate_before. destruct (Qlt_le_dec (cand_rate a) (cand_rate b)); [right | left]; lra.
Qed.

Lemma rate_before_trans (a b c : candidate) :
  rate_before a b → rate_before b c → rate_before a c.
Proof. unfold rate_before. lra. Qed.

Lemma filter_Forall {A} (f : A → bool) (l : list A) :
  Forall (λ x, f x = true) (List.filter f l).
Proof.
  apply Forall_forall. intros x Hx.
  apply list_elem_of_In in Hx. by apply filter_In in Hx as [_ ?].
Qed.

(** The outcome of the duel when the rows of the availability frame are
    listed in the order [index]: "A" gets the port, and its 5 kWh. *)
Definition duel_outcome (index : list string) : Prop :=
  ∃ sched,
    schedule_charging Duel.energy_needs (Duel.availability index) ∅
      Duel.cars_dict 1 19 = Some sched ∧
    sched !! "A" = Some [(18, 5%Q, 1%nat)] ∧ sched !! "B" = None.

(** C3. In every hour the candidates are ordered as: those with energy
    need > 0, ascending by need and, at equal need, descending by max
    rate; then those with need 0, descending by max rate.  So with one
    port, a vehicle that still needs 5 kWh at 7 kW gets the port before a
    vehicle without requirement that charges at 22 kW, in whichever order
    the two are listed. *)
Theorem C3_priority_order :
  (∀ car_needs : list candidate,
     prioritize car_needs = cars_with_needs car_needs ++ cars_without_needs car_needs ∧
     cars_with_needs car_needs
       ≡ₚ List.filter (λ c, Qlt_bool 0 (cand_energy c)) car_needs ∧
     Forall (λ c, (0 < cand_energy c)%Q) (cars_with_needs car_needs) ∧
     StronglySorted needs_before (cars_with_needs car_needs) ∧
     cars_without_needs car_needs
       ≡ₚ List.filter (λ c, Qeq_bool (cand_energy c) 0) car_needs ∧
     Forall (λ c, (cand_energy c == 0)%Q) (cars_without_needs car_needs) ∧
     StronglySorted rate_before (cars_without_needs car_needs)) ∧
  duel_outcome ["A"; "B"] ∧ duel_outcome ["B"; "A"].
Proof.
  split.
  - intros car_needs. unfold cars_with_needs, cars_without_needs.
    split; [done|]. split; [apply py_sorted_perm|]. split.
    { rewrite py_sorted_perm. eapply Forall_impl; [apply filter_Forall|].
      intros c Hc. by apply Qlt_bool_true. }
    split.
    { apply (py_sorted_sorted _ _ needs_key_lt_false needs_before_total needs_before_trans). }
    split; [apply py_sorted_perm|]. split.
    { rewrite py_sorted_perm. eapply Forall_impl; [apply filter_Forall|].
      intros c Hc. by apply Qeq_bool_iff. }
    apply (py_sorted_sorted _ _ rate_key_lt_false rate_before_total rate_before_trans).
  - split; eexists; (split; [vm_compute; reflexivity|]);
      split; vm_compute; reflexivity.
Qed.

(** ** The one-vehicle scenario *)

(** The powers of a session list, as reduced fractions. *)
Definition reduced (sessions : list session) : list session :=
  map (λ s : session, (s.1.1, Qred s.1.2, s.2)) sessions.

(** The flags after the hours [[18, 18 + n)] of the scenario. *)
Definition one_vehicle_flags_after (en : gmap string (list requirement)) (n : Z)
    : option (list bool) :=
  st ← run_hours en OneVehicle.availability OneVehicle.cars_dict OneVehicle.num_ports
         (seqZ 18 n) (initial_state en);
  requirements_met st !! "car1".

(** In the scenario the session of hour 20 does not carry 11 kW: the
    scheduler assigns [min(max_rate, remaining)], and 9.58 kWh remain. *)
Lemma C1_hour_20_is_not_11_kw :
  ∃ en sched,
    calculate_energy_needs OneVehicle.cars_dict OneVehicle.requirements
      OneVehicle.initial_soc = Some en ∧
    schedule_charging en OneVehicle.availability ∅ OneVehicle.cars_dict
      OneVehicle.num_ports OneVehicle.total_hours = Some sched ∧
    ¬ (session_power (sessions_of sched "car1") 20 == 11)%Q.
Proof.
  eexists. eexists. split; [vm_compute; reflexivity|].
  split; [vm_compute; reflexivity|]. vm_compute. discriminate.
Qed.

(** C1 (amended). In the one-vehicle scenario the deriver produces one
    requirement with energy need 600/19 kWh (31.58 to two decimals),
    deadline hour 31 and window [[18, 24)]; with one port and full
    availability the scheduler gives the vehicle 11 kW at hours 18 and 19
    and the remaining 182/19 kWh (9.58) at hour 20, on port 1, and no
    other session; the requirement is not yet marked satisfied after hour
    19 and is marked satisfied after hour 20. *)
Theorem C1_one_vehicle_scenario :
  ∃ en r st,
    calculate_energy_needs OneVehicle.cars_dict OneVehicle.requirements
      OneVehicle.initial_soc = Some en ∧
    map_to_list en = [("car1", [r])] ∧
    (energy_kwh r == ((8 # 10) - (2 # 10)) * 50 / (95 # 100))%Q ∧
    Qred (energy_kwh r) = (600 # 19)%Q ∧
    ((3157 # 100) < energy_kwh r ∧ energy_kwh r < (3158 # 100))%Q ∧
    deadline_hour r = 31 ∧ prior_day_start r = 18 ∧ prior_day_end r = 24 ∧
    schedule_charging_state en OneVehicle.availability OneVehicle.cars_dict
      OneVehicle.num_ports OneVehicle.total_hours = Some st ∧
    map_to_list (reduced <$> schedule st)
      = [("car1", [(18, 11%Q, 1%nat); (19, 11%Q, 1%nat); (20, (182 # 19)%Q, 1%nat)])] ∧
    one_vehicle_flags_after en 2 = Some [false] ∧
    one_vehicle_flags_after en 3 = Some [true] ∧
    requirements_met st !! "car1" = Some [true].
Proof.
  eexists. eexists. eexists.
  split; [vm_compute; reflexivity|].
  split; [vm_compute; reflexivity|].
  split; [vm_compute; reflexivity|].
  split; [vm_compute; reflexivity|].
  split; [split; vm_compute; reflexivity|].
  do 3 (split; [reflexivity|]).
  split; [vm_compute; reflexivity|].
  repeat split; vm_compute; reflexivity.
Qed.

(** ** Slot Scheduler: what one candidate does to the state *)

(** The three ways the body of the assignment loop ends for a candidate:
    a vehicle with need 0 is charged at its max rate; a vehicle whose
    requirement already received its energy is flagged and skipped; any
    other vehicle is charged [min(max_rate, remaining)] and flagged when
    that completes the need. *)
Inductive slot_effect (energy_needs : gmap string (list requirement)) (hour : Z)
    (c : candidate) (st st' : sched_state) : Prop :=
| effect_max_rate :
    Qeq_bool (cand_energy c) 0 = true →
    st' = add_session (cand_car c) hour (cand_rate c) (S (port_count st hour)) st →
    slot_effect energy_needs hour c st st'
| effect_skip reqs req :
    Qeq_bool (cand_energy c) 0 = false →
    energy_needs !! cand_car c = Some reqs →
    py_index reqs (cand_index c) = Some req →
    (cand_energy c <= energy_delivered req (sessions_of (schedule st) (cand_car c)))%Q →
    mark_met (cand_car c) (cand_index c) (touch_schedule (cand_car c) st) = Some st' →
    slot_effect energy_needs hour c st st'
| effect_charge reqs req st2 delivered power :
    Qeq_bool (cand_energy c) 0 = false →
    energy_needs !! cand_car c = Some reqs →
    py_index reqs (cand_index c) = Some req →
    delivered = energy_delivered req (sessions_of (schedule st) (cand_car c)) →
    power = py_min (cand_rate c) (cand_energy c - delivered)%Q →
    (delivered < cand_energy c)%Q →
    ((cand_energy c <= delivered + power)%Q ∧
       mark_met (cand_car c) (cand_index c) (touch_schedule (cand_car c) st) = Some st2
     ∨ (delivered + power < cand_energy c)%Q ∧ st2 = touch_schedule (cand_car c) st) →
    st' = add_session (cand_car c) hour power (S (port_count st hour)) st2 →
    slot_effect energy_needs hour c st st'.

Lemma assign_one_effect energy_needs hour c st st' :
  assign_one energy_needs hour c st = Some st' →
  slot_effect energy_needs hour c st st'.
Proof.
  destruct c as [[[car_id idx] energy] rate]. unfold assign_one.
  destruct (Qeq_bool energy 0) eqn:Ez.
  { intros [= <-]. by apply effect_max_rate. }
  destruct (energy_needs !! car_id) as [reqs|] eqn:Er; [|done]. simpl.
  destruct (py_index reqs idx) as [req|] eqn:Ei; [|done]. simpl.
  destruct (Qle_bool energy _) eqn:Ed.
  { intros Hm. apply Qle_bool_iff in Ed. by eapply effect_skip. }
  apply Qle_bool_false in Ed.
  destruct (Qle_bool energy (_ + _)) eqn:Ef.
  - destruct (mark_met car_id idx (touch_schedule car_id st)) as [st2|] eqn:Em; [|done].
    simpl. intros [= <-]. apply Qle_bool_iff in Ef.
    eapply effect_charge; eauto.
  - simpl. intros [= <-]. apply Qle_bool_false in Ef.
    eapply effect_charge; eauto.
Qed.

Lemma mark_met_effect car_id idx st st' :
  mark_met car_id idx st = Some st' →
  schedule st' = schedule st ∧ hour_port_count st' = hour_port_count st ∧
  ∃ flags flags', requirements_met st !! car_id = Some flags ∧
    py_setitem flags idx true = Some flags' ∧
    requirements_met st' = <[car_id := flags']> (requirements_met st).
Proof.
  unfold mark_met. destruct (requirements_met st !! car_id) as [flags|]; [|done]. simpl.
  destruct (py_setitem flags idx true) as [flags'|] eqn:E; [|done]. simpl.
  intros [= <-]. simpl. eauto 10.
Qed.

Lemma py_setitem_nat {A} (l l' : list A) (i : nat) (x : A) :
  py_setitem l (Z.of_nat i) x = Some l' → (i < length l)%nat ∧ l' = <[i := x]> l.
Proof.
  unfold py_setitem. destruct (Z.ltb_spec (Z.of_nat i) 0); [lia|].
  destruct (Z.ltb_spec (Z.of_nat i) (Z.of_nat (length l))); rewrite ?andb_false_r; [|done].
  destruct (Z.leb_spec 0 (Z.of_nat i)); [|lia]. simpl.
  rewrite Nat2Z.id. intros [= <-]. split; [lia | done].
Qed.

Lemma py_index_nat {A} (l : list A) (i : nat) : py_index l (Z.of_nat i) = l !! i.
Proof.
  unfold py_index. destruct (Z.ltb_spec (Z.of_nat i) 0); [lia|]. by rewrite Nat2Z.id.
Qed.

(** The schedule and the port counter after one candidate: the vehicle's
    session list grows by at most one session, of this hour and on the
    next port, and the counter grows with it. *)
Lemma slot_effect_schedule energy_needs hour c st st' :
  slot_effect energy_needs hour c st st' →
  ∃ extra,
    schedule st' = <[cand_car c := sessions_of (schedule st) (cand_car c) ++ extra]> (schedule st) ∧
    ((extra = [] ∧ hour_port_count st' = hour_port_count st) ∨
     (∃ power, extra = [(hour, power, S (port_count st hour))] ∧
        hour_port_count st' = <[hour := S (port_count st hour)]> (hour_port_count st))).
Proof.
  intros [Hz ->|reqs req Hz Hr Hi Hd Hm|reqs req st2 delivered power Hz Hr Hi -> -> Hd Hst2 ->].
  - eexists. split; [done|]. right. eauto.
  - apply mark_met_effect in Hm as (-> & -> & _). exists []. simpl.
    rewrite app_nil_r. auto.
  - assert (schedule st2 = schedule (touch_schedule (cand_car c) st) ∧
            hour_port_count st2 = hour_port_count st) as [Hs Hp].
    { destruct Hst2 as [[_ Hm]|[_ ->]]; [|done].
      by apply mark_met_effect in Hm as (-> & -> & _). }
    eexists. split; [|right; eexists; split; [done|]].
    + simpl. rewrite Hs. simpl. unfold sessions_of at 1.
      rewrite lookup_insert_eq. simpl. by rewrite insert_insert_eq.
    + simpl. unfold port_count. by rewrite Hp.
Qed.

(** Sessions per hour. *)
Definition session_hour (s : session) : Z := s.1.1.
Definition session_power_kw (s : session) : Q := s.1.2.

(** The sessions of a vehicle at hour [h]. *)
Definition hour_count (h : Z) (sessions : list session) : nat :=
  length (List.filter (λ s, session_hour s =? h) sessions).

(** The sessions of the whole schedule at hour [h], summed across the
    vehicles. *)
Definition sessions_at (sched : gmap string (list session)) (h : Z) : nat :=
  sum_list_with (λ kv : string * list session, hour_count h kv.2) (map_to_list sched).

Lemma hour_count_app h l k : hour_count h (l ++ k) = (hour_count h l + hour_count h k)%nat.
Proof. unfold hour_count. by rewrite List.filter_app, length_app. Qed.

Lemma sessions_at_insert sched car_id l h :
  (sessions_at (<[car_id := l]> sched) h + hour_count h (sessions_of sched car_id) =
   sessions_at sched h + hour_count h l)%nat.
Proof.
  unfold sessions_at, sessions_of. destruct (sched !! car_id) as [old|] eqn:E; simpl.
  - rewrite <- (insert_delete_eq sched).
    rewrite map_to_list_insert by apply lookup_delete_eq.
    rewrite <- (map_to_list_delete sched car_id old E). simpl. lia.
  - rewrite map_to_list_insert by done. simpl.
    change (hour_count h []) with 0%nat. lia.
Qed.

(** ** Slot Scheduler: the port limit *)

(** The counter of an hour is the number of sessions of that hour, and
    never exceeds the number of ports. *)
Definition ports_respected (num_ports : nat) (st : sched_state) : Prop :=
  ∀ h, sessions_at (schedule st) h = port_count st h ∧ (port_count st h ≤ num_ports)%nat.

Lemma hour_count_single h hour power port :
  hour_count h [(hour, power, port)] = if decide (hour = h) then 1%nat else 0%nat.
Proof.
  unfold hour_count. simpl. unfold session_hour. simpl.
  case_decide; destruct (Z.eqb_spec hour h); done.
Qed.

Lemma initial_state_ports num_ports energy_needs :
  ports_respected num_ports (initial_state energy_needs).
Proof.
  intros h. unfold sessions_at, port_count. simpl.
  rewrite map_to_list_empty, lookup_empty. simpl. split; [done | lia].
Qed.

Lemma slot_effect_ports num_ports energy_needs hour c st st' :
  (port_count st hour < num_ports)%nat →
  slot_effect energy_needs hour c st st' →
  ports_respected num_ports st → ports_respected num_ports st'.
Proof.
  intros Hfree Heff Hinv h. destruct (Hinv h) as [Hcount Hle].
  apply slot_effect_schedule in Heff as (extra & Hs & [[-> Hp]|(power & -> & Hp)]).
  - pose proof (sessions_at_insert (schedule st) (cand_car c)
                  (sessions_of (schedule st) (cand_car c) ++ []) h) as X.
    rewrite <- Hs, app_nil_r in X. unfold port_count in *. rewrite Hp. split; lia.
  - pose proof (sessions_at_insert (schedule st) (cand_car c)
                  (sessions_of (schedule st) (cand_car c) ++ [(hour, power, S (port_count st hour))]) h) as X.
    rewrite <- Hs, hour_count_app, hour_count_single in X.
    unfold port_count at 1 2. rewrite Hp. case_decide as E.
    + subst h. rewrite lookup_insert_eq. simpl. split; lia.
    + rewrite lookup_insert_ne by done. fold (port_count st h). split; lia.
Qed.

Lemma assign_slots_ports num_ports energy_needs hour cands st st' :
  assign_slots energy_needs num_ports hour cands st = Some st' →
  ports_respected num_ports st → ports_respected num_ports st'.
Proof.
  revert st. induction cands as [|c rest IH]; intros st Hrun Hinv; simpl in Hrun.
  - by injection Hrun as <-.
  - destruct (Nat.leb_spec num_ports (port_count st hour)); [by injection Hrun as <-|].
    destruct (assign_one energy_needs hour c st) as [st1|] eqn:E1; [|done].
    simpl in Hrun. apply (IH _ Hrun).
    eapply slot_effect_ports; [done | by apply assign_one_effect | done].
Qed.

Lemma schedule_hour_ports num_ports energy_needs av cars_dict st hour st' :
  schedule_hour energy_needs av cars_dict num_ports st hour = Some st' →
  ports_respected num_ports st → ports_respected num_ports st'.
Proof.
  unfold schedule_hour. destruct (av_columns av !! hour) as [col|]; [|by intros [= <-]].
  destruct (build_car_needs _ _ _ _ _) as [car_needs|]; [|done]. simpl.
  apply assign_slots_ports.
Qed.

Lemma run_hours_ports num_ports energy_needs av cars_dict hours st st' :
  run_hours energy_needs av cars_dict num_ports hours st = Some st' →
  ports_respected num_ports st → ports_respected num_ports st'.
Proof.
  revert st. induction hours as [|h rest IH]; intros st Hrun Hinv; simpl in Hrun.
  - by injection Hrun as <-.
  - destruct (schedule_hour energy_needs av cars_dict num_ports st h) as [st1|] eqn:E1; [|done].
    simpl in Hrun. apply (IH _ Hrun). by eapply schedule_hour_ports.
Qed.

(** ** Slot Scheduler: the candidates of an hour *)

Lemma submseteq_NoDup {A} (l k : list A) : l ⊆+ k → NoDup k → NoDup l.
Proof.
  intros [k' Hk]%submseteq_Permutation Hnd. rewrite Hk in Hnd.
  by apply NoDup_app in Hnd as [? _].
Qed.

Lemma map_submseteq {A B} (f : A → B) (l k : list A) : l ⊆+ k → map f l ⊆+ map f k.
Proof. intros H. by apply (fmap_submseteq f) in H. Qed.

Lemma filter_submseteq {A} (f : A → bool) (l : list A) : List.filter f l ⊆+ l.
Proof.
  induction l as [|x l IH]; simpl; [done|].
  destruct (f x); [by apply submseteq_skip | by apply submseteq_cons].
Qed.

Lemma zip_fst_submseteq {A B} (l : list A) (k : list B) : map fst (zip l k) ⊆+ l.
Proof.
  revert k. induction l as [|x l IH]; intros [|y k]; simpl; try done.
  - apply submseteq_nil_l.
  - apply submseteq_skip, IH.
Qed.

Lemma available_cars_submseteq av col : available_cars av col ⊆+ av_index av.
Proof.
  unfold available_cars. etrans; [|apply (zip_fst_submseteq _ col)].
  apply map_submseteq, filter_submseteq.
Qed.

(** A vehicle contributes at most one tuple, and the tuple names it. *)
Lemma car_candidates_cars energy_needs cars_dict met hour car_id cs :
  car_candidates energy_needs cars_dict met hour car_id = Some cs →
  map cand_car cs ⊆+ [car_id].
Proof.
  unfold car_candidates. destruct (energy_needs !! car_id) as [reqs|].
  - destruct (first_unmet hour (met !! car_id) 0 reqs) as [[[i req]|]|]; [| |done];
      intros [= <-]; simpl; [done | apply submseteq_nil_l].
  - destruct (cars_dict !! car_id); [|done]. by intros [= <-].
Qed.

Lemma build_car_needs_cars energy_needs cars_dict met hour available car_needs :
  build_car_needs energy_needs cars_dict met hour available = Some car_needs →
  map cand_car car_needs ⊆+ available.
Proof.
  revert car_needs. induction available as [|car_id rest IH]; intros car_needs; simpl.
  - by intros [= <-].
  - destruct (car_candidates energy_needs cars_dict met hour car_id) as [cs|] eqn:Ec; [|done].
    simpl. destruct (build_car_needs energy_needs cars_dict met hour rest) as [more|]; [|done].
    simpl. intros [= <-]. rewrite map_app.
    apply (submseteq_app _ [car_id] _ rest); [by eapply car_candidates_cars | by apply IH].
Qed.

Lemma partition_submseteq {A} (f g : A → bool) (l : list A) :
  (∀ x, f x = true → g x = false) →
  List.filter f l ++ List.filter g l ⊆+ l.
Proof.
  intros Hfg. induction l as [|x l IH]; simpl; [done|].
  destruct (f x) eqn:Ef.
  - rewrite (Hfg x Ef). simpl. by apply submseteq_skip.
  - destruct (g x).
    + rewrite <- Permutation_middle. by apply submseteq_skip.
    + by apply submseteq_cons.
Qed.

Lemma prioritize_submseteq car_needs : prioritize car_needs ⊆+ car_needs.
Proof.
  unfold prioritize, cars_with_needs, cars_without_needs.
  rewrite !py_sorted_perm. apply partition_submseteq.
  intros c Hc. apply Qlt_bool_true in Hc. apply Qeq_bool_false. lra.
Qed.

(** The tuples the assignment loop sees in one hour name distinct
    vehicles, all of them rows of the availability frame. *)
Lemma hour_candidates_cars energy_needs cars_dict met hour av col num_ports car_needs :
  build_car_needs energy_needs cars_dict met hour (available_cars av col) = Some car_needs →
  map cand_car (take num_ports (prioritize car_needs)) ⊆+ av_index av.
Proof.
  intros Hb. etrans; [|apply (available_cars_submseteq av col)].
  etrans; [|by eapply build_car_needs_cars].
  apply map_submseteq. etrans; [apply submseteq_take | apply prioritize_submseteq].
Qed.

(** ** Slot Scheduler: one session per vehicle and hour *)

(** No vehicle has two sessions in an hour, and none in an hour that was
    not processed yet. *)
Definition one_per_hour (processed : Z → Prop) (st : sched_state) : Prop :=
  ∀ car_id h,
    (hour_count h (sessions_of (schedule st) car_id) ≤ 1)%nat ∧
    (¬ processed h → hour_count h (sessions_of (schedule st) car_id) = 0%nat).

Lemma slot_effect_sessions energy_needs hour c st st' :
  slot_effect energy_needs hour c st st' →
  ∃ extra,
    (extra = [] ∨ ∃ power port, extra = [(hour, power, port)]) ∧
    ∀ k, sessions_of (schedule st') k =
         sessions_of (schedule st) k ++ (if decide (k = cand_car c) then extra else []).
Proof.
  intros Heff. apply slot_effect_schedule in Heff as (extra & Hs & Hextra).
  exists extra. split.
  - destruct Hextra as [[-> _]|(power & -> & _)]; eauto.
  - intros k. rewrite Hs. unfold sessions_of at 1. case_decide as E.
    + subst k. by rewrite lookup_insert_eq.
    + rewrite lookup_insert_ne by done. by rewrite app_nil_r.
Qed.

Lemma assign_slots_one_per_hour energy_needs num_ports hour processed cands st st' :
  assign_slots energy_needs num_ports hour cands st = Some st' →
  NoDup (map cand_car cands) →
  one_per_hour (λ h, h = hour ∨ processed h) st →
  (∀ c, c ∈ cands → hour_count hour (sessions_of (schedule st) (cand_car c)) = 0%nat) →
  one_per_hour (λ h, h = hour ∨ processed h) st'.
Proof.
  revert st. induction cands as [|c rest IH]; intros st Hrun Hnd Hinv Hfresh; simpl in Hrun.
  - by injection Hrun as <-.
  - destruct (num_ports <=? port_count st hour)%nat; [by injection Hrun as <-|].
    destruct (assign_one energy_needs hour c st) as [st1|] eqn:E1; [|done].
    simpl in Hrun. simpl in Hnd. apply NoDup_cons in Hnd as [Hc Hnd].
    apply assign_one_effect, slot_effect_sessions in E1 as (extra & Hextra & Hs).
    apply (IH _ Hrun Hnd).
    + intros k h. rewrite Hs, hour_count_app. destruct (Hinv k h) as [Hle Hzero].
      case_decide as Ek; [|change (hour_count h []) with 0%nat; split; [lia|]; intros; rewrite Hzero; auto].
      destruct Hextra as [->|(power & port & ->)].
      { change (hour_count h []) with 0%nat. split; [lia|]. intros; rewrite Hzero; auto. }
      rewrite hour_count_single. case_decide as Eh.
      * subst h k. rewrite (Hfresh c) by left. split; [lia|]. intros Hn. exfalso. auto.
      * split; [lia|]. intros Hn. rewrite Hzero; auto.
    + intros c' Hc'. rewrite Hs. case_decide as Ek.
      * exfalso. apply Hc. rewrite <- Ek. apply list_elem_of_In, in_map, list_elem_of_In, Hc'.
      * rewrite app_nil_r. apply Hfresh. by right.
Qed.

Lemma schedule_hour_one_per_hour energy_needs av cars_dict num_ports processed st hour st' :
  NoDup (av_index av) → ¬ processed hour →
  schedule_hour energy_needs av cars_dict num_ports st hour = Some st' →
  one_per_hour processed st →
  one_per_hour (λ h, h = hour ∨ processed h) st'.
Proof.
  intros Hnd Hnew Hrun Hinv.
  assert (one_per_hour (λ h, h = hour ∨ processed h) st) as Hweak.
  { intros k h. destruct (Hinv k h) as [Hle Hzero]. split; [done|]. intros Hn. apply Hzero. tauto. }
  unfold schedule_hour in Hrun.
  destruct (av_columns av !! hour) as [col|]; [|by injection Hrun as <-].
  destruct (build_car_needs _ _ _ _ _) as [car_needs|] eqn:Eb; [|done]. simpl in Hrun.
  eapply assign_slots_one_per_hour; [exact Hrun | | exact Hweak |].
  - eapply submseteq_NoDup; [by eapply hour_candidates_cars | done].
  - intros c _. by apply Hinv.
Qed.

Lemma run_hours_one_per_hour energy_needs av cars_dict num_ports hours processed st st' :
  NoDup (av_index av) → NoDup hours → (∀ h, h ∈ hours → ¬ processed h) →
  run_hours energy_needs av cars_dict num_ports hours st = Some st' →
  one_per_hour processed st →
  ∀ car_id h, (hour_count h (sessions_of (schedule st') car_id) ≤ 1)%nat.
Proof.
  intros Hnd. revert processed st.
  induction hours as [|h0 rest IH]; intros processed st Hhours Hnew Hrun Hinv; simpl in Hrun.
  - injection Hrun as <-. intros k h. apply Hinv.
  - destruct (schedule_hour energy_needs av cars_dict num_ports st h0) as [st1|] eqn:E1; [|done].
    simpl in Hrun. apply NoDup_cons in Hhours as [Hh0 Hrest].
    apply (IH (λ h, h = h0 ∨ processed h) st1 Hrest); [|done|].
    + intros h Hh [->|Hp]; [done|]. apply (Hnew h); [by right | done].
    + eapply schedule_hour_one_per_hour; eauto. apply Hnew. by left.
Qed.

(** C2. The schedule holds at most [num_ports] sessions at any hour,
    summed across the vehicles; and, the rows of the availability frame
    naming distinct vehicles, no vehicle has two sessions at one hour. *)
Theorem C2_port_limit energy_needs av price_dict cars_dict num_ports total_hours sched :
  schedule_charging energy_needs av price_dict cars_dict num_ports total_hours = Some sched →
  (∀ h, (sessions_at sched h ≤ num_ports)%nat) ∧
  (NoDup (av_index av) → ∀ car_id h, (hour_count h (sessions_of sched car_id) ≤ 1)%nat).
Proof.
  unfold schedule_charging, schedule_charging_state.
  destruct (run_hours _ _ _ _ _ _) as [st|] eqn:Hrun; [|done]. intros [= <-]. split.
  - intros h. apply run_hours_ports in Hrun; [|apply initial_state_ports].
    destruct (Hrun h) as [-> ?]. done.
  - intros Hnd. eapply (run_hours_one_per_hour _ _ _ _ _ (λ _, False)); eauto.
    + apply NoDup_seqZ.
    + intros k h. simpl. unfold sessions_of. rewrite lookup_empty. simpl.
      change (hour_count h []) with 0%nat. split; [lia | done].
Qed.

(** ** Slot Scheduler: well-formed candidates, and termination without error *)

(** A tuple built from requirement [i] of its vehicle, whose window
    contains the hour. *)
Definition from_requirement (energy_needs : gmap string (list requirement))
    (hour : Z) (c : candidate) : Prop :=
  ∃ reqs i req,
    energy_needs !! cand_car c = Some reqs ∧ cand_index c = Z.of_nat i ∧
    reqs !! i = Some req ∧ cand_energy c = energy_kwh req ∧
    cand_rate c = max_rate_kw req ∧ window_contains req hour = true.

(** A tuple built for a vehicle that has no requirement. *)
Definition without_requirement (energy_needs : gmap string (list requirement))
    (cars_dict : gmap string car) (c : candidate) : Prop :=
  energy_needs !! cand_car c = None ∧ cand_index c = -1 ∧ cand_energy c = 0%Q ∧
  ∃ v, cars_dict !! cand_car c = Some v ∧ cand_rate c = max_charge_rate_kW v.

Definition valid_candidate (energy_needs : gmap string (list requirement))
    (cars_dict : gmap string car) (hour : Z) (c : candidate) : Prop :=
  from_requirement energy_needs hour c ∨ without_requirement energy_needs cars_dict c.

(** What the scan of a vehicle's requirements returns: the first index
    at or after [i0] that is unmet and eligible. *)
Lemma first_unmet_Some hour flags (all : list requirement) i0 i req :
  first_unmet hour flags i0 (drop i0 all) = Some (Some (i, req)) →
  ∃ fl, flags = Some fl ∧ (i0 ≤ i)%nat ∧ all !! i = Some req ∧
        fl !! i = Some false ∧ window_contains req hour = true ∧
        ∀ j r, (i0 ≤ j < i)%nat → all !! j = Some r →
               fl !! j = Some true ∨ window_contains r hour = false.
Proof.
  remember (length all - i0)%nat as n eqn:Hn. revert i0 Hn.
  induction n as [|n IH]; intros i0 Hn.
  - rewrite drop_ge by lia. done.
  - destruct (all !! i0) as [r0|] eqn:E0; [|apply lookup_ge_None in E0; lia].
    rewrite (drop_S _ _ _ E0). simpl.
    destruct flags as [fl|]; [|done]. simpl.
    destruct (fl !! i0) as [met|] eqn:Em; [|done]. simpl.
    destruct (negb met && window_contains r0 hour) eqn:Eb.
    + intros [= <- <-]. apply andb_true_iff in Eb as [Hmet Hw].
      apply negb_true_iff in Hmet. subst met.
      exists fl. repeat split; auto. intros j r ?. lia.
    + intros Hrec. destruct (IH (S i0) ltac:(lia) Hrec) as (fl' & [= <-] & Hle & Hi & Hf & Hw & Hbefore).
      exists fl. repeat split; auto; [lia|].
      intros j r Hj Hr. destruct (decide (j = i0)) as [->|]; [|apply (Hbefore j r); [lia | done]].
      rewrite E0 in Hr. injection Hr as <-. apply andb_false_iff in Eb as [Hmet|Hw'].
      * left. apply negb_false_iff in Hmet. by subst met.
      * by right.
Qed.

Lemma first_unmet_found hour fl (all : list requirement) i0 i req :
  (i0 ≤ i)%nat → all !! i = Some req → fl !! i = Some false →
  window_contains req hour = true →
  (∀ j r, (i0 ≤ j < i)%nat → all !! j = Some r →
          fl !! j = Some true ∨ (is_Some (fl !! j) ∧ window_contains r hour = false)) →
  first_unmet hour (Some fl) i0 (drop i0 all) = Some (Some (i, req)).
Proof.
  intros Hle Hi Hf Hw. remember (i - i0)%nat as n eqn:Hn. revert i0 Hn Hle.
  induction n as [|n IH]; intros i0 Hn Hle Hbefore.
  - assert (i0 = i) as -> by lia. rewrite (drop_S _ _ _ Hi). simpl.
    rewrite Hf. simpl. by rewrite Hw.
  - destruct (all !! i0) as [r0|] eqn:E0.
    2: { apply lookup_ge_None in E0. apply lookup_lt_Some in Hi. lia. }
    rewrite (drop_S _ _ _ E0). simpl.
    destruct (Hbefore i0 r0 ltac:(lia) E0) as [Hm|[[b Hm] Hw0]]; rewrite Hm; simpl.
    + apply IH; [lia | lia |]. intros j r ?. apply Hbefore. lia.
    + rewrite Hw0, andb_false_r. apply IH; [lia | lia |]. intros j r ?. apply Hbefore. lia.
Qed.

Lemma first_unmet_total hour fl (all : list requirement) i0 :
  length fl = length all → is_Some (first_unmet hour (Some fl) i0 (drop i0 all)).
Proof.
  intros Hlen. remember (length all - i0)%nat as n eqn:Hn. revert i0 Hn.
  induction n as [|n IH]; intros i0 Hn.
  - rewrite drop_ge by lia. simpl. eauto.
  - destruct (all !! i0) as [r0|] eqn:E0; [|apply lookup_ge_None in E0; lia].
    rewrite (drop_S _ _ _ E0). simpl.
    destruct (fl !! i0) as [met|] eqn:Em.
    2: { apply lookup_ge_None in Em. apply lookup_lt_Some in E0. lia. }
    simpl. destruct (negb met && window_contains r0 hour); [eauto|]. apply IH. lia.
Qed.

Lemma car_candidates_valid energy_needs cars_dict met hour car_id cs :
  car_candidates energy_needs cars_dict met hour car_id = Some cs →
  Forall (valid_candidate energy_needs cars_dict hour) cs.
Proof.
  unfold car_candidates. destruct (energy_needs !! car_id) as [reqs|] eqn:Er.
  - destruct (first_unmet hour (met !! car_id) 0 reqs) as [[[i req]|]|] eqn:Ef; [| |done];
      intros [= <-]; [|constructor].
    apply (first_unmet_Some _ _ reqs 0) in Ef as (fl & _ & _ & Hi & _ & Hw & _).
    constructor; [|constructor]. left. exists reqs, i, req. auto 10.
  - destruct (cars_dict !! car_id) as [v|] eqn:Ev; [|done]. intros [= <-].
    constructor; [|constructor]. right. repeat split; eauto.
Qed.

Lemma build_car_needs_valid energy_needs cars_dict met hour available car_needs :
  build_car_needs energy_needs cars_dict met hour available = Some car_needs →
  Forall (valid_candidate energy_needs cars_dict hour) car_needs.
Proof.
  revert car_needs. induction available as [|car_id rest IH]; intros car_needs; simpl.
  - intros [= <-]. constructor.
  - destruct (car_candidates energy_needs cars_dict met hour car_id) as [cs|] eqn:Ec; [|done].
    simpl. destruct (build_car_needs energy_needs cars_dict met hour rest) as [more|]; [|done].
    simpl. intros [= <-]. apply Forall_app. split; [by eapply car_candidates_valid | by apply IH].
Qed.

(** Every tuple of the hour's truncated priority list is well formed and
    has a need that is positive or zero. *)
Lemma hour_candidates_valid energy_needs cars_dict met hour available num_ports car_needs :
  build_car_needs energy_needs cars_dict met hour available = Some car_needs →
  Forall (λ c, valid_candidate energy_needs cars_dict hour c ∧ (0 <= cand_energy c)%Q)
    (take num_ports (prioritize car_needs)).
Proof.
  intros Hb. apply Forall_forall. intros c Hc.
  apply elem_of_submseteq with (k := prioritize car_needs) in Hc; [|apply submseteq_take].
  split.
  - apply build_car_needs_valid in Hb. rewrite Forall_forall in Hb. apply Hb.
    eapply elem_of_submseteq; [exact Hc | apply prioritize_submseteq].
  - unfold prioritize in Hc. apply elem_of_app in Hc as [Hc|Hc].
    + unfold cars_with_needs in Hc. rewrite py_sorted_perm in Hc.
      apply list_elem_of_In, filter_In in Hc as [_ Hc]. apply Qlt_bool_true in Hc. lra.
    + unfold cars_without_needs in Hc. rewrite py_sorted_perm in Hc.
      apply list_elem_of_In, filter_In in Hc as [_ Hc]. apply Qeq_bool_iff in Hc. lra.
Qed.

(** The flags mirror the requirements: one flag per requirement. *)
Definition flags_shaped (energy_needs : gmap string (list requirement))
    (st : sched_state) : Prop :=
  ∀ car_id reqs, energy_needs !! car_id = Some reqs →
    ∃ fl, requirements_met st !! car_id = Some fl ∧ length fl = length reqs.

Lemma initial_state_shaped energy_needs : flags_shaped energy_needs (initial_state energy_needs).
Proof.
  intros car_id reqs Hr. simpl. rewrite lookup_fmap, Hr. simpl.
  eexists. split; [done|]. apply length_replicate.
Qed.

Lemma py_setitem_length {A} (l l' : list A) i x :
  py_setitem l i x = Some l' → length l' = length l.
Proof.
  unfold py_setitem. destruct (_ && _); [|done]. intros [= <-]. apply length_insert.
Qed.

Lemma mark_met_shaped energy_needs car_id idx st st' :
  mark_met car_id idx st = Some st' →
  flags_shaped energy_needs st → flags_shaped energy_needs st'.
Proof.
  intros (_ & _ & fl & fl' & Hfl & Hset & Hmet)%mark_met_effect Hinv k reqs Hr.
  rewrite Hmet. destruct (decide (k = car_id)) as [->|].
  - rewrite lookup_insert_eq. destruct (Hinv _ _ Hr) as (fl0 & Hfl0 & Hlen).
    exists fl'. split; [done|]. apply py_setitem_length in Hset. congruence.
  - rewrite lookup_insert_ne by done. by apply Hinv.
Qed.

Lemma slot_effect_shaped energy_needs hour c st st' :
  slot_effect energy_needs hour c st st' →
  flags_shaped energy_needs st → flags_shaped energy_needs st'.
Proof.
  intros [Hz ->|reqs req Hz Hr Hi Hd Hm|reqs req st2 delivered power Hz Hr Hi -> -> Hd Hst2 ->] Hinv.
  - exact Hinv.
  - by eapply mark_met_shaped.
  - destruct Hst2 as [[_ Hm]|[_ ->]]; [|exact Hinv].
    intros k rs Hk. simpl. eapply mark_met_shaped in Hm; [|exact Hinv]. by apply Hm.
Qed.

Lemma assign_one_total energy_needs cars_dict hour c st :
  valid_candidate energy_needs cars_dict hour c → flags_shaped energy_needs st →
  is_Some (assign_one energy_needs hour c st).
Proof.
  intros Hv Hshape. destruct c as [[[car_id idx] energy] rate]. unfold assign_one.
  destruct (Qeq_bool energy 0) eqn:Ez; [eauto|].
  destruct Hv as [(reqs & i & req & Hr & Hi & Hreq & He & _)|(_ & _ & He & _)];
    unfold cand_car, cand_index, cand_energy in *; simpl in *; [|subst energy; done].
  subst idx. rewrite Hr. simpl. rewrite py_index_nat, Hreq. simpl.
  assert (is_Some (mark_met car_id (Z.of_nat i) (touch_schedule car_id st))) as [st2 Hm].
  { unfold mark_met. simpl. destruct (Hshape _ _ Hr) as (fl & -> & Hlen). simpl.
    unfold py_setitem. apply lookup_lt_Some in Hreq.
    destruct (Z.ltb_spec (Z.of_nat i) 0); [lia|].
    destruct (Z.leb_spec 0 (Z.of_nat i)); [|lia].
    destruct (Z.ltb_spec (Z.of_nat i) (Z.of_nat (length fl))); [|lia]. simpl. eauto. }
  rewrite Hm. destruct (Qle_bool energy _); [eauto|].
  destruct (Qle_bool energy _); simpl; eauto.
Qed.

Lemma assign_slots_shaped energy_needs num_ports hour cands st st' :
  assign_slots energy_needs num_ports hour cands st = Some st' →
  flags_shaped energy_needs st → flags_shaped energy_needs st'.
Proof.
  revert st. induction cands as [|c rest IH]; intros st Hrun Hinv; simpl in Hrun.
  - by injection Hrun as <-.
  - destruct (num_ports <=? port_count st hour)%nat; [by injection Hrun as <-|].
    destruct (assign_one energy_needs hour c st) as [st1|] eqn:E1; [|done].
    simpl in Hrun. apply (IH _ Hrun). eapply slot_effect_shaped; [by apply assign_one_effect | done].
Qed.

Lemma assign_slots_total energy_needs cars_dict num_ports hour cands st :
  Forall (valid_candidate energy_needs cars_dict hour) cands →
  flags_shaped energy_needs st →
  is_Some (assign_slots energy_needs num_ports hour cands st).
Proof.
  intros Hv. revert st. induction Hv as [|c rest Hc _ IH]; intros st Hshape; simpl.
  - eauto.
  - destruct (num_ports <=? port_count st hour)%nat; [eauto|].
    destruct (assign_one_total _ _ _ _ _ Hc Hshape) as [st1 E1]. rewrite E1. simpl.
    apply IH. eapply slot_effect_shaped; [by apply assign_one_effect | done].
Qed.

Lemma schedule_hour_shaped energy_needs av cars_dict num_ports st hour st' :
  schedule_hour energy_needs av cars_dict num_ports st hour = Some st' →
  flags_shaped energy_needs st → flags_shaped energy_needs st'.
Proof.
  unfold schedule_hour. destruct (av_columns av !! hour) as [col|]; [|by intros [= <-]].
  destruct (build_car_needs _ _ _ _ _) as [car_needs|]; [|done]. simpl.
  apply assign_slots_shaped.
Qed.

Lemma run_hours_shaped energy_needs av cars_dict num_ports hours st st' :
  run_hours energy_needs av cars_dict num_ports hours st = Some st' →
  flags_shaped energy_needs st → flags_shaped energy_needs st'.
Proof.
  revert st. induction hours as [|h rest IH]; intros st Hrun Hinv; simpl in Hrun.
  - by injection Hrun as <-.
  - destruct (schedule_hour energy_needs av cars_dict num_ports st h) as [st1|] eqn:E1; [|done].
    simpl in Hrun. apply (IH _ Hrun). by eapply schedule_hour_shaped.
Qed.

(** Every row of the availability frame is a vehicle with requirements
    or a vehicle of the roster: the one lookup of the scheduler that can
    fail does not. *)
Definition rows_known (energy_needs : gmap string (list requirement))
    (av : availability_t) (cars_dict : gmap string car) : Prop :=
  ∀ car_id, car_id ∈ av_index av →
    is_Some (energy_needs !! car_id) ∨ is_Some (cars_dict !! car_id).

Lemma build_car_needs_total energy_needs cars_dict st hour available :
  flags_shaped energy_needs st →
  (∀ car_id, car_id ∈ available →
     is_Some (energy_needs !! car_id) ∨ is_Some (cars_dict !! car_id)) →
  is_Some (build_car_needs energy_needs cars_dict (requirements_met st) hour available).
Proof.
  intros Hshape. induction available as [|car_id rest IH]; intros Hknown; simpl; [eauto|].
  assert (is_Some (car_candidates energy_needs cars_dict (requirements_met st) hour car_id))
    as [cs ->].
  { unfold car_candidates. destruct (energy_needs !! car_id) as [reqs|] eqn:Er.
    - destruct (Hshape _ _ Er) as (fl & -> & Hlen).
      destruct (first_unmet_total hour fl reqs 0 Hlen) as [found Hf].
      rewrite drop_0 in Hf. rewrite Hf. simpl. eauto.
    - destruct (Hknown car_id ltac:(left)) as [[x Hx]|[v Hv]]; [congruence|].
      rewrite Hv. simpl. eauto. }
  simpl. destruct IH as [more ->]; [|simpl; eauto].
  intros k Hk. apply Hknown. by right.
Qed.

Lemma schedule_hour_total energy_needs av cars_dict num_ports st hour :
  rows_known energy_needs av cars_dict → flags_shaped energy_needs st →
  is_Some (schedule_hour energy_needs av cars_dict num_ports st hour).
Proof.
  intros Hknown Hshape. unfold schedule_hour.
  destruct (av_columns av !! hour) as [col|]; [|eauto].
  destruct (build_car_needs_total energy_needs cars_dict st hour (available_cars av col) Hshape)
    as [car_needs Hb].
  { intros k Hk. apply Hknown. eapply elem_of_submseteq; [exact Hk | apply available_cars_submseteq]. }
  rewrite Hb. simpl. eapply assign_slots_total; [|done].
  eapply Forall_impl; [by eapply hour_candidates_valid|]. by intros c [? _].
Qed.

Lemma run_hours_total energy_needs av cars_dict num_ports hours st :
  rows_known energy_needs av cars_dict → flags_shaped energy_needs st →
  is_Some (run_hours energy_needs av cars_dict num_ports hours st).
Proof.
  intros Hknown. revert st. induction hours as [|h rest IH]; intros st Hshape; simpl; [eauto|].
  destruct (schedule_hour_total energy_needs av cars_dict num_ports st h Hknown Hshape)
    as [st1 E1].
  rewrite E1. simpl. apply IH. by eapply schedule_hour_shaped.
Qed.

(** The scheduler returns a schedule whenever every row of the
    availability frame is known. *)
Lemma schedule_charging_total energy_needs av price_dict cars_dict num_ports total_hours :
  rows_known energy_needs av cars_dict →
  is_Some (schedule_charging energy_needs av price_dict cars_dict num_ports total_hours).
Proof.
  intros Hknown. unfold schedule_charging, schedule_charging_state.
  destruct (run_hours_total energy_needs av cars_dict num_ports (horizon total_hours)
              (initial_state energy_needs) Hknown (initial_state_shaped _)) as [st ->].
  simpl. eauto.
Qed.

(** ** Slot Scheduler: delivered energy *)

Lemma py_sum_snoc (l : list Q) (x : Q) : py_sum (l ++ [x]) = (py_sum l + x)%Q.
Proof. unfold py_sum. by rewrite fold_left_app. Qed.

Lemma energy_delivered_snoc r sessions s :
  energy_delivered r (sessions ++ [s]) =
  if window_contains r (session_hour s)
  then (energy_delivered r sessions + session_power_kw s)%Q
  else energy_delivered r sessions.
Proof.
  unfold energy_delivered. rewrite List.filter_app. simpl.
  fold (session_hour s). destruct (window_contains r (session_hour s)).
  - rewrite map_app. apply py_sum_snoc.
  - by rewrite app_nil_r.
Qed.

Lemma energy_delivered_grows r sessions extra :
  Forall (λ s, (0 <= session_power_kw s)%Q) extra →
  (energy_delivered r sessions <= energy_delivered r (sessions ++ extra))%Q.
Proof.
  intros H. revert sessions. induction H as [|s extra Hs _ IH]; intros sessions.
  - rewrite app_nil_r. lra.
  - rewrite (cons_middle s), app_assoc.
    eapply Qle_trans; [|apply IH].
    rewrite energy_delivered_snoc. destruct (window_contains _ _); lra.
Qed.

Lemma energy_delivered_nonpos r sessions :
  Forall (λ s, (session_power_kw s < 0)%Q) sessions →
  (energy_delivered r sessions <= 0)%Q.
Proof.
  induction sessions as [|s sessions IH] using rev_ind; intros H.
  - apply Qle_refl.
  - apply Forall_app in H as [H1 H2]. rewrite Forall_singleton in H2.
    rewrite energy_delivered_snoc. specialize (IH H1).
    destruct (window_contains _ _); lra.
Qed.

Lemma py_min_cases (a b : Q) :
  ((b < a)%Q ∧ py_min a b = b) ∨ ((a <= b)%Q ∧ py_min a b = a).
Proof.
  unfold py_min. destruct (Qlt_bool b a) eqn:E.
  - left. by apply Qlt_bool_true in E.
  - right. by apply Qlt_bool_false in E.
Qed.

Lemma sessions_of_add_session car_id hour power port st k :
  sessions_of (schedule (add_session car_id hour power port st)) k =
  sessions_of (schedule st) k ++ (if decide (k = car_id) then [(hour, power, port)] else []).
Proof.
  simpl. unfold sessions_of at 1. case_decide as E.
  - subst k. by rewrite lookup_insert_eq.
  - rewrite lookup_insert_ne by done. by rewrite app_nil_r.
Qed.

Lemma sessions_of_touch car_id st k :
  sessions_of (schedule (touch_schedule car_id st)) k = sessions_of (schedule st) k.
Proof.
  simpl. unfold sessions_of at 1. destruct (decide (k = car_id)) as [->|].
  - by rewrite lookup_insert_eq.
  - by rewrite lookup_insert_ne.
Qed.

(** The session a candidate receives, if any: its hour is the current
    one, its power is the max rate when the need is 0, and has the sign
    of the max rate otherwise. *)
Lemma slot_effect_power energy_needs hour c st st' :
  slot_effect energy_needs hour c st st' →
  ∃ extra,
    (∀ k, sessions_of (schedule st') k =
          sessions_of (schedule st) k ++ (if decide (k = cand_car c) then extra else [])) ∧
    Forall (λ s, session_hour s = hour ∧
                 ((0 <= cand_rate c)%Q → (0 <= session_power_kw s)%Q) ∧
                 ((cand_rate c < 0)%Q → (session_power_kw s < 0)%Q)) extra ∧
    (Qeq_bool (cand_energy c) 0 = true →
       extra = [(hour, cand_rate c, S (port_count st hour))]).
Proof.
  intros [Hz ->|reqs req Hz Hr Hi Hd Hm|reqs req st2 delivered power Hz Hr Hi -> Hp Hd Hst2 ->].
  - eexists. split; [apply sessions_of_add_session|]. split; [|done].
    constructor; [|constructor]. unfold session_hour, session_power_kw. simpl. auto.
  - exists []. split; [|split; [constructor | congruence]].
    intros k. apply mark_met_effect in Hm as (-> & _).
    rewrite sessions_of_touch. destruct (decide _); by rewrite app_nil_r.
  - eexists. split; [|split; [|congruence]].
    + intros k. rewrite sessions_of_add_session.
      replace (sessions_of (schedule st2) k) with (sessions_of (schedule st) k); [done|].
      destruct Hst2 as [[_ Hm]|[_ ->]].
      * apply mark_met_effect in Hm as (-> & _). by rewrite sessions_of_touch.
      * by rewrite sessions_of_touch.
    + constructor; [|constructor]. unfold session_hour, session_power_kw. simpl.
      split; [done|].
      destruct (py_min_cases (cand_rate c)
                  (cand_energy c - energy_delivered req (sessions_of (schedule st) (cand_car c))))
        as [[Hlt He]|[Hle He]]; rewrite <- Hp in He; rewrite He; split; intros; lra.
Qed.

Lemma mark_met_flags car_id i st st' k fl' j :
  mark_met car_id (Z.of_nat i) st = Some st' →
  requirements_met st' !! k = Some fl' → fl' !! j = Some true →
  (∃ fl, requirements_met st !! k = Some fl ∧ fl !! j = Some true) ∨
  (k = car_id ∧ j = i).
Proof.
  intros (_ & _ & fl & fl2 & Hfl & Hset & Hmet)%mark_met_effect Hlook Hj.
  rewrite Hmet in Hlook. destruct (decide (k = car_id)) as [->|Hk].
  - rewrite lookup_insert_eq in Hlook. injection Hlook as ->.
    apply py_setitem_nat in Hset as [Hlt ->].
    destruct (decide (j = i)) as [->|Hji]; [by right|].
    left. exists fl. split; [done|]. by rewrite list_lookup_insert_ne in Hj.
  - rewrite lookup_insert_ne in Hlook by done. eauto.
Qed.

(** Where a raised flag comes from: it was raised before, or it is the
    flag of the candidate's requirement, whose need is not 0 and is now
    covered by the energy delivered in its window. *)
Lemma slot_effect_flags energy_needs hour c st st' :
  slot_effect energy_needs hour c st st' →
  from_requirement energy_needs hour c ∨ Qeq_bool (cand_energy c) 0 = true →
  ∀ k fl' j, requirements_met st' !! k = Some fl' → fl' !! j = Some true →
    (∃ fl, requirements_met st !! k = Some fl ∧ fl !! j = Some true) ∨
    (k = cand_car c ∧ cand_index c = Z.of_nat j ∧
     Qeq_bool (cand_energy c) 0 = false ∧
     ∃ reqs req, energy_needs !! cand_car c = Some reqs ∧ reqs !! j = Some req ∧
       cand_energy c = energy_kwh req ∧
       (energy_kwh req <= energy_delivered req (sessions_of (schedule st') (cand_car c)))%Q).
Proof.
  intros Heff Hvalid k fl' j Hfl' Hj.
  destruct Heff as [Hz ->|reqs req Hz Hr Hi Hd Hm|reqs req st2 delivered power Hz Hr Hi -> Hp Hd Hst2 ->].
  - left. eauto.
  - destruct Hvalid as [(reqs0 & i & req0 & Hr0 & Hidx & Hreq0 & He & _ & Hw)|?]; [|congruence].
    rewrite Hr in Hr0. injection Hr0 as <-.
    rewrite Hidx, py_index_nat, Hreq0 in Hi. injection Hi as <-.
    rewrite Hidx in Hm.
    destruct (mark_met_flags _ _ _ _ _ _ _ Hm Hfl' Hj) as [Hold|[-> ->]]; [by left|].
    right. repeat split; [done..|]. exists reqs, req0. repeat split; [done..|].
    apply mark_met_effect in Hm as (-> & _). rewrite sessions_of_touch. by rewrite <- He.
  - simpl in Hfl'.
    destruct Hst2 as [[Hfull Hm]|[_ ->]]; [|left; eauto].
    destruct Hvalid as [(reqs0 & i & req0 & Hr0 & Hidx & Hreq0 & He & _ & Hw)|?]; [|congruence].
    rewrite Hr in Hr0. injection Hr0 as <-.
    rewrite Hidx, py_index_nat, Hreq0 in Hi. injection Hi as <-.
    rewrite Hidx in Hm.
    destruct (mark_met_flags _ _ _ _ _ _ _ Hm Hfl' Hj) as [Hold|[-> ->]]; [by left|].
    right. repeat split; [done..|]. exists reqs, req0. repeat split; [done..|].
    rewrite sessions_of_add_session. rewrite decide_True by done.
    apply mark_met_effect in Hm as (-> & _). rewrite sessions_of_touch.
    rewrite energy_delivered_snoc. unfold session_hour, session_power_kw. simpl.
    rewrite Hw. rewrite <- He. exact Hfull.
Qed.

(** All the requirements of a vehicle carry the same max rate (the
    vehicle's). *)
Definition uniform_rates (energy_needs : gmap string (list requirement)) : Prop :=
  ∀ car_id reqs r r', energy_needs !! car_id = Some reqs →
    r ∈ reqs → r' ∈ reqs → max_rate_kw r = max_rate_kw r'.

(** A raised flag belongs to a requirement with a positive need that the
    sessions of its window cover; and a vehicle with a negative max rate
    has sessions of negative power only. *)
Definition delivered_ok (energy_needs : gmap string (list requirement))
    (st : sched_state) : Prop :=
  (∀ car_id reqs fl i r,
     energy_needs !! car_id = Some reqs → requirements_met st !! car_id = Some fl →
     fl !! i = Some true → reqs !! i = Some r →
     (0 < energy_kwh r)%Q ∧
     (energy_kwh r <= energy_delivered r (sessions_of (schedule st) car_id))%Q) ∧
  (∀ car_id reqs r,
     energy_needs !! car_id = Some reqs → r ∈ reqs → (max_rate_kw r < 0)%Q →
     Forall (λ s, (session_power_kw s < 0)%Q) (sessions_of (schedule st) car_id)).

Lemma initial_state_delivered energy_needs : delivered_ok energy_needs (initial_state energy_needs).
Proof.
  split.
  - intros car_id reqs fl i r Hr Hfl Hi _. simpl in Hfl. rewrite lookup_fmap, Hr in Hfl.
    injection Hfl as <-. by apply lookup_replicate in Hi as [[=] _].
  - intros car_id reqs r _ _ _. simpl. unfold sessions_of. rewrite lookup_empty. constructor.
Qed.

Lemma valid_candidate_kind energy_needs cars_dict hour c :
  valid_candidate energy_needs cars_dict hour c →
  from_requirement energy_needs hour c ∨ Qeq_bool (cand_energy c) 0 = true.
Proof.
  intros [?|(_ & _ & He & _)]; [by left|]. right. by rewrite He.
Qed.

Lemma valid_candidate_rate energy_needs cars_dict hour c reqs r :
  valid_candidate energy_needs cars_dict hour c → uniform_rates energy_needs →
  energy_needs !! cand_car c = Some reqs → r ∈ reqs → cand_rate c = max_rate_kw r.
Proof.
  intros [(reqs0 & i & req0 & Hr0 & _ & Hreq0 & _ & Hrate & _)|(Hnone & _)] Hu Hr Hin;
    [|congruence].
  rewrite Hr in Hr0. injection Hr0 as <-. rewrite Hrate.
  eapply Hu; [exact Hr | | exact Hin]. by eapply list_elem_of_lookup_2.
Qed.

Lemma slot_effect_delivered energy_needs cars_dict hour c st st' :
  slot_effect energy_needs hour c st st' →
  valid_candidate energy_needs cars_dict hour c → (0 <= cand_energy c)%Q →
  uniform_rates energy_needs →
  delivered_ok energy_needs st → delivered_ok energy_needs st'.
Proof.
  intros Heff Hvalid Hnonneg Hu [J1 J2].
  destruct (slot_effect_power _ _ _ _ _ Heff) as (extra & Hs & Hpow & _).
  pose proof (slot_effect_flags _ _ _ _ _ Heff (valid_candidate_kind _ _ _ _ Hvalid)) as Hflags.
  split.
  - intros car_id reqs fl' i r Hr Hfl' Hi Hreq.
    destruct (Hflags _ _ _ Hfl' Hi) as [(fl & Hfl & Hold)|(-> & _ & Hz & reqs' & req & Hr' & Hreq' & He & Hd)].
    + destruct (J1 _ _ _ _ _ Hr Hfl Hold Hreq) as [Hpos Hle]. split; [done|].
      rewrite Hs. case_decide as Ecar; [|by rewrite app_nil_r]. subst car_id.
      assert (cand_rate c = max_rate_kw r) as Hrate.
      { eapply valid_candidate_rate; eauto. by eapply list_elem_of_lookup_2. }
      destruct (Qlt_le_dec (cand_rate c) 0) as [Hneg|Hok].
      * exfalso. rewrite Hrate in Hneg.
        pose proof (J2 _ _ r Hr ltac:(by eapply list_elem_of_lookup_2) Hneg) as Hall.
        apply (energy_delivered_nonpos r) in Hall. lra.
      * eapply Qle_trans; [exact Hle|]. apply energy_delivered_grows.
        eapply Forall_impl; [exact Hpow|]. intros s (_ & Hs1 & _). auto.
    + rewrite Hr in Hr'. injection Hr' as <-. rewrite Hreq in Hreq'. injection Hreq' as <-.
      split; [|done]. apply Qeq_bool_false in Hz. rewrite He in *. lra.
  - intros car_id reqs r Hr Hin Hneg. rewrite Hs. apply Forall_app. split; [by eapply J2|].
    case_decide as Ecar; [|constructor]. subst car_id.
    assert (cand_rate c = max_rate_kw r) as Hrate by (eapply valid_candidate_rate; eauto).
    eapply Forall_impl; [exact Hpow|]. intros s (_ & _ & Hs2). apply Hs2. by rewrite Hrate.
Qed.

Lemma assign_slots_delivered energy_needs cars_dict num_ports hour cands st st' :
  assign_slots energy_needs num_ports hour cands st = Some st' →
  Forall (λ c, valid_candidate energy_needs cars_dict hour c ∧ (0 <= cand_energy c)%Q) cands →
  uniform_rates energy_needs →
  delivered_ok energy_needs st → delivered_ok energy_needs st'.
Proof.
  intros Hrun Hv Hu. revert st Hrun.
  induction Hv as [|c rest [Hc Hpos] _ IH]; intros st Hrun Hinv; simpl in Hrun.
  - by injection Hrun as <-.
  - destruct (num_ports <=? port_count st hour)%nat; [by injection Hrun as <-|].
    destruct (assign_one energy_needs hour c st) as [st1|] eqn:E1; [|done].
    simpl in Hrun. apply (IH _ Hrun).
    eapply slot_effect_delivered; eauto using assign_one_effect.
Qed.

Lemma run_hours_delivered energy_needs av cars_dict num_ports hours st st' :
  run_hours energy_needs av cars_dict num_ports hours st = Some st' →
  uniform_rates energy_needs →
  delivered_ok energy_needs st → delivered_ok energy_needs st'.
Proof.
  intros Hrun Hu. revert st Hrun.
  induction hours as [|h rest IH]; intros st Hrun Hinv; simpl in Hrun.
  - by injection Hrun as <-.
  - destruct (schedule_hour energy_needs av cars_dict num_ports st h) as [st1|] eqn:E1; [|done].
    simpl in Hrun. apply (IH _ Hrun). unfold schedule_hour in E1.
    destruct (av_columns av !! h) as [col|]; [|by injection E1 as <-].
    destruct (build_car_needs _ _ _ _ _) as [car_needs|] eqn:Eb; [|done]. simpl in E1.
    eapply assign_slots_delivered; eauto using hour_candidates_valid.
Qed.

Lemma calculate_energy_needs_uniform cars_dict requirements initial_soc en :
  calculate_energy_needs cars_dict requirements initial_soc = Some en →
  uniform_rates en.
Proof.
  intros Hrun car_id reqs r r' Hr Hin Hin'.
  destruct (derive_cars_extends _ _ _ _ _ Hrun car_id) as (new & F & E & _).
  rewrite lookup_empty, Hr in E. simpl in E. subst new.
  destruct (Forall2_emitted _ _ _ _ F Hin) as (e & _ & c & d & H & Hc & _ & _ & Hspec).
  destruct (Forall2_emitted _ _ _ _ F Hin') as (e' & _ & c' & d' & H' & Hc' & _ & _ & Hspec').
  destruct Hspec as (_ & _ & _ & -> & _). destruct Hspec' as (_ & _ & _ & -> & _).
  congruence.
Qed.

(** C4. After the scheduler has run on the requirements the deriver
    produced, every requirement whose flag is raised has received, in the
    sessions of its vehicle that fall in its eligibility window, at least
    its energy need. *)
Theorem C4_satisfied_requirements_are_delivered cars_dict requirements initial_soc
    en av num_ports total_hours st :
  calculate_energy_needs cars_dict requirements initial_soc = Some en →
  schedule_charging_state en av cars_dict num_ports total_hours = Some st →
  ∀ car_id reqs fl i r,
    en !! car_id = Some reqs → requirements_met st !! car_id = Some fl →
    fl !! i = Some true → reqs !! i = Some r →
    (energy_kwh r <= energy_delivered r (sessions_of (schedule st) car_id))%Q.
Proof.
  intros Hen Hrun car_id reqs fl i r Hr Hfl Hi Hreq.
  apply run_hours_delivered in Hrun as [J1 _];
    [| by eapply calculate_energy_needs_uniform | apply initial_state_delivered].
  by destruct (J1 _ _ _ _ _ Hr Hfl Hi Hreq).
Qed.

(** ** Slot Scheduler: flags are only ever raised *)

Definition flags_kept (st st' : sched_state) : Prop :=
  ∀ car_id fl i, requirements_met st !! car_id = Some fl → fl !! i = Some true →
    ∃ fl', requirements_met st' !! car_id = Some fl' ∧ fl' !! i = Some true.

Lemma flags_kept_refl st : flags_kept st st.
Proof. intros car_id fl i ? ?. eauto. Qed.

Lemma flags_kept_same st st' :
  requirements_met st' = requirements_met st → flags_kept st st'.
Proof. intros E car_id fl i ? ?. rewrite E. eauto. Qed.

Lemma flags_kept_trans st1 st2 st3 :
  flags_kept st1 st2 → flags_kept st2 st3 → flags_kept st1 st3.
Proof.
  intros H12 H23 car_id fl i Hfl Hi.
  destruct (H12 _ _ _ Hfl Hi) as (fl2 & Hfl2 & Hi2). eauto.
Qed.

Lemma mark_met_kept car_id idx st st' :
  mark_met car_id idx st = Some st' → flags_kept st st'.
Proof.
  intros (_ & _ & fl & fl' & Hfl & Hset & Hmet)%mark_met_effect k fl0 i Hfl0 Hi.
  rewrite Hmet. destruct (decide (k = car_id)) as [->|].
  - rewrite lookup_insert_eq. exists fl'. split; [done|].
    rewrite Hfl in Hfl0. injection Hfl0 as <-.
    unfold py_setitem in Hset. destruct (_ && _); [|done]. injection Hset as <-.
    destruct (decide (Z.to_nat (if idx <? 0 then idx + Z.of_nat (length fl) else idx) = i))
      as [<-|Hne].
    + apply list_lookup_insert_eq. by eapply lookup_lt_Some.
    + by rewrite list_lookup_insert_ne.
  - rewrite lookup_insert_ne by done. eauto.
Qed.

Lemma slot_effect_kept energy_needs hour c st st' :
  slot_effect energy_needs hour c st st' → flags_kept st st'.
Proof.
  intros [Hz ->|reqs req Hz Hr Hi Hd Hm|reqs req st2 delivered power Hz Hr Hi -> -> Hd Hst2 ->].
  - by apply flags_kept_same.
  - apply (flags_kept_trans _ (touch_schedule (cand_car c) st));
      [by apply flags_kept_same | by eapply mark_met_kept].
  - apply (flags_kept_trans _ st2); [|by apply flags_kept_same].
    destruct Hst2 as [[_ Hm]|[_ ->]]; [|by apply flags_kept_same].
    apply (flags_kept_trans _ (touch_schedule (cand_car c) st));
      [by apply flags_kept_same | by eapply mark_met_kept].
Qed.

Lemma assign_slots_kept energy_needs num_ports hour cands st st' :
  assign_slots energy_needs num_ports hour cands st = Some st' → flags_kept st st'.
Proof.
  revert st. induction cands as [|c rest IH]; intros st Hrun; simpl in Hrun.
  - injection Hrun as <-. apply flags_kept_refl.
  - destruct (num_ports <=? port_count st hour)%nat;
      [injection Hrun as <-; apply flags_kept_refl|].
    destruct (assign_one energy_needs hour c st) as [st1|] eqn:E1; [|done].
    simpl in Hrun. eapply flags_kept_trans; [|by apply IH].
    eapply slot_effect_kept. by apply assign_one_effect.
Qed.

Lemma run_hours_kept energy_needs av cars_dict num_ports hours st st' :
  run_hours energy_needs av cars_dict num_ports hours st = Some st' → flags_kept st st'.
Proof.
  revert st. induction hours as [|h rest IH]; intros st Hrun; simpl in Hrun.
  - injection Hrun as <-. apply flags_kept_refl.
  - destruct (schedule_hour energy_needs av cars_dict num_ports st h) as [st1|] eqn:E1; [|done].
    simpl in Hrun. eapply flags_kept_trans; [|by apply IH].
    unfold schedule_hour in E1.
    destruct (av_columns av !! h) as [col|]; [|injection E1 as <-; apply flags_kept_refl].
    destruct (build_car_needs _ _ _ _ _) as [car_needs|]; [|done]. simpl in E1.
    by eapply assign_slots_kept.
Qed.

(** Two requirements of a vehicle whose windows share an hour have the
    same window. *)
Definition windows_nest (energy_needs : gmap string (list requirement)) : Prop :=
  ∀ car_id reqs r r' h h', energy_needs !! car_id = Some reqs →
    r ∈ reqs → r' ∈ reqs →
    window_contains r h = true → window_contains r' h = true →
    window_contains r h' = window_contains r' h'.

Lemma calculate_energy_needs_windows cars_dict requirements initial_soc en :
  calculate_energy_needs cars_dict requirements initial_soc = Some en →
  windows_nest en.
Proof.
  intros Hrun car_id reqs r r' h h' Hr Hin Hin'.
  destruct (derive_cars_extends _ _ _ _ _ Hrun car_id) as (new & F & E & _).
  rewrite lookup_empty, Hr in E. simpl in E. subst new.
  destruct (Forall2_emitted _ _ _ _ F Hin) as (e & _ & c & d & H & _ & _ & _ & Hspec).
  destruct (Forall2_emitted _ _ _ _ F Hin') as (e' & _ & c' & d' & H' & _ & _ & _ & Hspec').
  destruct Hspec as (_ & _ & _ & _ & _ & Hs & He).
  destruct Hspec' as (_ & _ & _ & _ & _ & Hs' & He').
  unfold window_contains. rewrite Hs, He, Hs', He'. intros Hw Hw'.
  apply andb_true_iff in Hw as [?%Z.leb_le ?%Z.ltb_lt].
  apply andb_true_iff in Hw' as [?%Z.leb_le ?%Z.ltb_lt].
  assert (d = d') as -> by lia. done.
Qed.

Lemma calculate_energy_needs_rate cars_dict requirements initial_soc en car_id reqs r :
  calculate_energy_needs cars_dict requirements initial_soc = Some en →
  en !! car_id = Some reqs → r ∈ reqs →
  ∃ v, cars_dict !! car_id = Some v ∧ max_rate_kw r = max_charge_rate_kW v.
Proof.
  intros Hrun Hr Hin.
  destruct (derive_cars_extends _ _ _ _ _ Hrun car_id) as (new & F & E & _).
  rewrite lookup_empty, Hr in E. simpl in E. subst new.
  destruct (Forall2_emitted _ _ _ _ F Hin) as (e & _ & c & d & H & Hc & _ & _ & Hspec).
  destruct Hspec as (_ & _ & _ & Hrate & _). eauto.
Qed.

(** ** Slot Scheduler: a requirement whose need is exactly 0 *)

(** The tuple built from requirement [i] of a vehicle. *)
Definition requirement_candidate (car_id : string) (i : nat) (r : requirement) : candidate :=
  (car_id, Z.of_nat i, energy_kwh r, max_rate_kw r).

(** C10. Let the scan of an available vehicle's requirements stop, at
    some point of the run, on a requirement whose energy need is exactly
    0.  Then the vehicle's tuple is in the group of the candidates
    without needs and not in the group with needs; whenever the tuple is
    assigned, the vehicle gets a session at its full max charge rate, and
    nothing else happens (no delivered-energy check, no flag); the
    requirement's flag is still down in any later state of the run; and
    in any later state the scan stops on the same requirement at every
    hour of its window. *)
Theorem C10_zero_need_requirement cars_dict requirements initial_soc en av num_ports
    hours1 hours2 st1 st2 car_id reqs i r h :
  calculate_energy_needs cars_dict requirements initial_soc = Some en →
  run_hours en av cars_dict num_ports hours1 (initial_state en) = Some st1 →
  en !! car_id = Some reqs →
  first_unmet h (requirements_met st1 !! car_id) 0 reqs = Some (Some (i, r)) →
  (energy_kwh r == 0)%Q →
  run_hours en av cars_dict num_ports hours2 st1 = Some st2 →
  car_candidates en cars_dict (requirements_met st1) h car_id
    = Some [requirement_candidate car_id i r] ∧
  (∀ car_needs, requirement_candidate car_id i r ∈ car_needs →
     requirement_candidate car_id i r ∈ cars_without_needs car_needs ∧
     requirement_candidate car_id i r ∉ cars_with_needs car_needs) ∧
  (∀ st hour,
     assign_one en hour (requirement_candidate car_id i r) st
       = Some (add_session car_id hour (max_rate_kw r) (S (port_count st hour)) st) ∧
     requirements_met (add_session car_id hour (max_rate_kw r) (S (port_count st hour)) st)
       = requirements_met st) ∧
  (∃ v, cars_dict !! car_id = Some v ∧ max_rate_kw r = max_charge_rate_kW v) ∧
  (∃ fl, requirements_met st2 !! car_id = Some fl ∧ fl !! i = Some false) ∧
  (∀ h', window_contains r h' = true →
     car_candidates en cars_dict (requirements_met st2) h' car_id
       = Some [requirement_candidate car_id i r]).
Proof.
  intros Hen Hrun1 Hr Hscan Hzero Hrun2.
  pose proof Hscan as Hfirst.
  apply (first_unmet_Some _ _ reqs 0) in Hfirst as (fl1 & Hfl1 & _ & Hi & Hf1 & Hw & Hbefore).
  assert (r ∈ reqs) as Hin by (by eapply list_elem_of_lookup_2).
  assert (delivered_ok en st2) as [J1 _].
  { eapply run_hours_delivered; [exact Hrun2 | by eapply calculate_energy_needs_uniform |].
    eapply run_hours_delivered; [exact Hrun1 | by eapply calculate_energy_needs_uniform |].
    apply initial_state_delivered. }
  assert (flags_shaped en st2) as Hshape.
  { eapply run_hours_shaped; [exact Hrun2|].
    eapply run_hours_shaped; [exact Hrun1 | apply initial_state_shaped]. }
  destruct (Hshape _ _ Hr) as (fl2 & Hfl2 & Hlen).
  assert (fl2 !! i = Some false) as Hf2.
  { destruct (fl2 !! i) as [[|]|] eqn:E; [| done |].
    - destruct (J1 _ _ _ _ _ Hr Hfl2 E Hi) as [Hpos _]. lra.
    - apply lookup_ge_None in E. apply lookup_lt_Some in Hi. lia. }
  split; [|split; [|split; [|split; [|split]]]].
  - unfold car_candidates. by rewrite Hr, Hscan.
  - intros car_needs Hc. unfold cars_without_needs, cars_with_needs.
    rewrite !py_sorted_perm. split.
    + apply list_elem_of_In, filter_In. split; [by apply list_elem_of_In|].
      by apply Qeq_bool_iff.
    + intros Hbad. apply list_elem_of_In, filter_In in Hbad as [_ Hbad].
      apply Qlt_bool_true in Hbad. unfold requirement_candidate, cand_energy in Hbad.
      simpl in Hbad. lra.
  - intros st hour. split; [|done]. unfold assign_one, requirement_candidate.
    apply Qeq_bool_iff in Hzero. by rewrite Hzero.
  - by eapply calculate_energy_needs_rate.
  - eauto.
  - intros h' Hw'. unfold car_candidates. rewrite Hr, Hfl2.
    assert (first_unmet h' (Some fl2) 0 reqs = Some (Some (i, r))) as ->; [|done].
    apply (first_unmet_found h' fl2 reqs 0 i r); [lia | done | done | done |].
    intros j rj Hj Hrj.
    destruct (Hbefore j rj Hj Hrj) as [Hmet|Hout].
    + left. rewrite Hfl1 in Hscan.
      destruct (run_hours_kept _ _ _ _ _ _ _ Hrun2 car_id fl1 j) as (fl2' & Hfl2' & Hj2);
        [by destruct (requirements_met st1 !! car_id); simplify_eq | done |].
      by simplify_eq.
    + right. split.
      * apply lookup_lt_is_Some. apply lookup_lt_Some in Hrj. lia.
      * destruct (window_contains rj h') eqn:Ew; [|done].
        assert (rj ∈ reqs) as Hinj by (by eapply list_elem_of_lookup_2).
        pose proof (calculate_energy_needs_windows _ _ _ _ Hen car_id reqs rj r h' h
                      Hr Hinj Hin Ew Hw') as Hsame.
        congruence.
Qed.

(** ** Slot Scheduler: truncation to the first [num_ports] candidates *)

Lemma assign_slots_untouched energy_needs num_ports hour cands st st' car_id :
  assign_slots energy_needs num_ports hour cands st = Some st' →
  car_id ∉ map cand_car cands →
  sessions_of (schedule st') car_id = sessions_of (schedule st) car_id.
Proof.
  revert st. induction cands as [|c rest IH]; intros st Hrun Hout; simpl in Hrun.
  - by injection Hrun as <-.
  - destruct (num_ports <=? port_count st hour)%nat; [by injection Hrun as <-|].
    destruct (assign_one energy_needs hour c st) as [st1|] eqn:E1; [|done].
    simpl in Hrun. simpl in Hout. apply not_elem_of_cons in Hout as [Hne Hout].
    rewrite (IH _ Hrun Hout).
    apply assign_one_effect, slot_effect_sessions in E1 as (extra & _ & Hs).
    rewrite Hs, decide_False by done. apply app_nil_r.
Qed.

(** C5. In one hour only the first [num_ports] candidates of the
    priority list can receive a session; a considered candidate whose
    requirement already received its energy is flagged and skipped, which
    changes neither a session list nor the port counter; and the skipped
    slot is not given to a candidate further down the list: in the
    two-vehicle scenario, at hour 21 the priority list is ["A"; "B"], "A"
    alone is considered and is skipped, so the hour ends with no session
    and the port unused although "B" is a candidate; "B" charges only
    from hour 22 on. *)
Theorem C5_truncation_without_backfill :
  (∀ energy_needs av cars_dict num_ports st hour st' car_id,
     schedule_hour energy_needs av cars_dict num_ports st hour = Some st' →
     sessions_of (schedule st') car_id ≠ sessions_of (schedule st) car_id →
     ∃ col car_needs,
       av_columns av !! hour = Some col ∧
       build_car_needs energy_needs cars_dict (requirements_met st) hour
         (available_cars av col) = Some car_needs ∧
       car_id ∈ map cand_car (take num_ports (prioritize car_needs))) ∧
  (∀ energy_needs hour c st st' reqs i req,
     energy_needs !! cand_car c = Some reqs → cand_index c = Z.of_nat i →
     reqs !! i = Some req → Qeq_bool (cand_energy c) 0 = false →
     (cand_energy c <= energy_delivered req (sessions_of (schedule st) (cand_car c)))%Q →
     assign_one energy_needs hour c st = Some st' →
     (∀ k, sessions_of (schedule st') k = sessions_of (schedule st) k) ∧
     (∀ h, port_count st' h = port_count st h) ∧
     (∃ fl, requirements_met st' !! cand_car c = Some fl ∧ fl !! i = Some true)) ∧
  (∃ en st20 car_needs st21 st24,
     calculate_energy_needs Backfill.cars_dict Backfill.requirements
       Backfill.initial_soc = Some en ∧
     run_hours en Backfill.availability Backfill.cars_dict Backfill.num_ports
       [18; 19; 20] (initial_state en) = Some st20 ∧
     build_car_needs en Backfill.cars_dict (requirements_met st20) 21 ["A"; "B"]
       = Some car_needs ∧
     map cand_car (prioritize car_needs) = ["A"; "B"] ∧
     map cand_car (take Backfill.num_ports (prioritize car_needs)) = ["A"] ∧
     schedule_hour en Backfill.availability Backfill.cars_dict Backfill.num_ports st20 21
       = Some st21 ∧
     sessions_at (schedule st21) 21 = 0%nat ∧ port_count st21 21 = 0%nat ∧
     schedule st21 = schedule st20 ∧
     schedule_charging_state en Backfill.availability Backfill.cars_dict
       Backfill.num_ports Backfill.total_hours = Some st24 ∧
     sessions_at (schedule st24) 21 = 0%nat ∧
     map session_hour (sessions_of (schedule st24) "A") = [18; 19; 20] ∧
     map session_hour (sessions_of (schedule st24) "B") = [22; 23]).
Proof.
  split; [|split].
  - intros energy_needs av cars_dict num_ports st hour st' car_id Hrun Hchanged.
    unfold schedule_hour in Hrun.
    destruct (av_columns av !! hour) as [col|]; [|by simplify_eq].
    destruct (build_car_needs _ _ _ _ _) as [car_needs|] eqn:Eb; [|done]. simpl in Hrun.
    exists col, car_needs. split; [done|]. split; [done|].
    destruct (decide (car_id ∈ map cand_car (take num_ports (prioritize car_needs))))
      as [|Hout]; [done|].
    exfalso. apply Hchanged. by eapply assign_slots_untouched.
  - intros energy_needs hour c st st' reqs i req Hr Hidx Hreq Hz Hd.
    destruct c as [[[car_id idx] energy] rate].
    unfold cand_car, cand_index, cand_energy in *. simpl in *. subst idx.
    unfold assign_one. rewrite Hz, Hr. simpl. rewrite py_index_nat, Hreq. simpl.
    apply Qle_bool_iff in Hd. rewrite Hd. intros Hm.
    pose proof Hm as (Hs & Hp & fl & fl' & Hfl & Hset & Hmet)%mark_met_effect.
    split; [|split].
    + intros k. rewrite Hs. apply sessions_of_touch.
    + intros h. unfold port_count. by rewrite Hp.
    + exists fl'. rewrite Hmet, lookup_insert_eq. split; [done|].
      apply py_setitem_nat in Hset as [Hlt ->]. by apply list_lookup_insert_eq.
  - do 5 eexists.
    split; [vm_compute; reflexivity|].
    split; [vm_compute; reflexivity|].
    split; [vm_compute; reflexivity|].
    split; [vm_compute; reflexivity|].
    split; [vm_compute; reflexivity|].
    split; [vm_compute; reflexivity|].
    split; [vm_compute; reflexivity|].
    split; [vm_compute; reflexivity|].
    split; [vm_compute; reflexivity|].
    split; [vm_compute; reflexivity|].
    repeat split; vm_compute; reflexivity.
Qed.

(** ** The theorems on the scenarios *)

(** In the low-target scenario the target lies in [0, 1] and the energy
    need is negative. *)
Lemma C7_negative_energy_need :
  ∃ en r,
    calculate_energy_needs LowTarget.cars_dict LowTarget.requirements
      LowTarget.initial_soc = Some en ∧
    en !! "car1" = Some [r] ∧
    (0 <= target_soc r)%Q ∧ (target_soc r <= 1)%Q ∧
    (energy_kwh r < 0)%Q.
Proof.
  eexists. eexists. split; [vm_compute; reflexivity|].
  split; [vm_compute; reflexivity|].
  repeat split; vm_compute; congruence.
Qed.

(** A vehicle of the roster that never charges is not a key of the
    schedule, and the simulator records no trace for it. *)
Lemma C8_idle_vehicle_has_no_trace :
  ∃ sched cost_summary final_soc hourly_soc,
    schedule_charging ∅ Idle.availability ∅ Idle.cars_dict 1 168 = Some sched ∧
    compute_costs_and_soc sched Idle.cars_dict ∅ ∅ (2 # 10)%Q
      = Some (cost_summary, final_soc, hourly_soc) ∧
    is_Some (Idle.cars_dict !! "car1") ∧
    hourly_soc !! "car1" = None.
Proof.
  do 4 eexists. split; [vm_compute; reflexivity|].
  split; [vm_compute; reflexivity|].
  split; [by eexists | vm_compute; reflexivity].
Qed.

(** The trace covers the hours up to 167 also when the scheduler ran
    with a shorter horizon. *)
Example trace_ignores_scheduler_horizon :
  ∃ en sched cost_summary final_soc hourly_soc tr,
    calculate_energy_needs OneVehicle.cars_dict OneVehicle.requirements
      OneVehicle.initial_soc = Some en ∧
    schedule_charging en OneVehicle.availability ∅ OneVehicle.cars_dict 1 24 = Some sched ∧
    compute_costs_and_soc sched OneVehicle.cars_dict ∅ en OneVehicle.initial_soc
      = Some (cost_summary, final_soc, hourly_soc) ∧
    hourly_soc !! "car1" = Some tr ∧
    length tr = 150%nat ∧ record_hour <$> last tr = Some 167.
Proof.
  do 6 eexists. split; [vm_compute; reflexivity|].
  split; [vm_compute; reflexivity|].
  split; [vm_compute; reflexivity|].
  split; [vm_compute; reflexivity|].
  split; vm_compute; reflexivity.
Qed.

Lemma C2_port_limit_witness :
  schedule_charging OneVehicle.energy_needs OneVehicle.availability ∅
    OneVehicle.cars_dict OneVehicle.num_ports OneVehicle.total_hours
    = Some (schedule OneVehicle.final_state) ∧
  (sessions_at (schedule OneVehicle.final_state) 18 ≤ OneVehicle.num_ports)%nat ∧
  (hour_count 18 (sessions_of (schedule OneVehicle.final_state) "car1") ≤ 1)%nat.
Proof.
  assert (schedule_charging OneVehicle.energy_needs OneVehicle.availability ∅
            OneVehicle.cars_dict OneVehicle.num_ports OneVehicle.total_hours
          = Some (schedule OneVehicle.final_state)) as H by (vm_compute; reflexivity).
  split; [exact H|].
  destruct (C2_port_limit _ _ _ _ _ _ _ H) as [Hports Hone].
  split; [apply Hports|]. apply Hone. apply NoDup_singleton.
Defined.

Lemma C4_satisfied_requirements_are_delivered_witness :
  calculate_energy_needs OneVehicle.cars_dict OneVehicle.requirements
    OneVehicle.initial_soc = Some OneVehicle.energy_needs ∧
  requirements_met OneVehicle.final_state !! "car1" = Some [true] ∧
  (energy_kwh (make_requirement (Car 50 11) OneVehicle.initial_soc 0 7 (8 # 10)%Q)
     <= energy_delivered (make_requirement (Car 50 11) OneVehicle.initial_soc 0 7 (8 # 10)%Q)
          (sessions_of (schedule OneVehicle.final_state) "car1"))%Q.
Proof.
  assert (calculate_energy_needs OneVehicle.cars_dict OneVehicle.requirements
            OneVehicle.initial_soc = Some OneVehicle.energy_needs) as Hen
    by (vm_compute; reflexivity).
  assert (requirements_met OneVehicle.final_state !! "car1" = Some [true]) as Hfl
    by (vm_compute; reflexivity).
  split; [exact Hen|]. split; [exact Hfl|].
  apply (C4_satisfied_requirements_are_delivered OneVehicle.cars_dict
           OneVehicle.requirements OneVehicle.initial_soc OneVehicle.energy_needs
           OneVehicle.availability OneVehicle.num_ports OneVehicle.total_hours
           OneVehicle.final_state Hen ltac:(vm_compute; reflexivity) "car1"
           [make_requirement (Car 50 11) OneVehicle.initial_soc 0 7 (8 # 10)%Q]
           [true] 0%nat);
    [vm_compute; reflexivity | exact Hfl | reflexivity | reflexivity].
Defined.

Lemma C6_deriver_emits_requirements_witness :
  calculate_energy_needs OneVehicle.cars_dict OneVehicle.requirements
    OneVehicle.initial_soc = Some OneVehicle.energy_needs ∧
  Forall2 (emits OneVehicle.cars_dict OneVehicle.initial_soc "car1")
    [("0", "07:00", (8 # 10)%Q)] (default [] (OneVehicle.energy_needs !! "car1")) ∧
  OneVehicle.energy_needs !! "car2" = None.
Proof.
  assert (calculate_energy_needs OneVehicle.cars_dict OneVehicle.requirements
            OneVehicle.initial_soc = Some OneVehicle.energy_needs) as Hen
    by (vm_compute; reflexivity).
  split; [exact Hen|]. split.
  - apply (C6_deriver_emits_requirements _ _ _ _ Hen "car1").
  - apply (C6_deriver_emits_requirements _ _ _ _ Hen "car2"). reflexivity.
Defined.

Lemma C7_energy_need_nonnegative_witness :
  calculate_energy_needs OneVehicle.cars_dict OneVehicle.requirements
    OneVehicle.initial_soc = Some OneVehicle.energy_needs ∧
  (0 <= energy_kwh (make_requirement (Car 50 11) OneVehicle.initial_soc 0 7 (8 # 10)%Q))%Q.
Proof.
  assert (calculate_energy_needs OneVehicle.cars_dict OneVehicle.requirements
            OneVehicle.initial_soc = Some OneVehicle.energy_needs) as Hen
    by (vm_compute; reflexivity).
  split; [exact Hen|].
  apply (C7_energy_need_nonnegative _ _ _ _ Hen) with (car_id := "car1"%string)
    (reqs := [make_requirement (Car 50 11) OneVehicle.initial_soc 0 7 (8 # 10)%Q]).
  - intros car_id c Hc. unfold OneVehicle.cars_dict in Hc.
    apply lookup_singleton_Some in Hc as [_ <-]. vm_compute. discriminate.
  - intros car_id e He. unfold entries_of, OneVehicle.requirements in He. simpl in He.
    destruct (decide ("car1"%string = car_id)); simpl in He.
    + apply list_elem_of_singleton in He as ->. vm_compute. discriminate.
    + by apply elem_of_nil in He.
  - vm_compute. reflexivity.
  - apply list_elem_of_singleton. reflexivity.
Defined.

Lemma C8_trace_for_scheduled_vehicles_witness :
  compute_costs_and_soc (schedule OneVehicle.final_state) OneVehicle.cars_dict ∅
    OneVehicle.energy_needs OneVehicle.initial_soc
    = Some (OneVehicle.simulation.1.1, OneVehicle.simulation.1.2, OneVehicle.simulation.2) ∧
  ∃ tr, OneVehicle.simulation.2 !! "car1" = Some tr ∧
        trace_of (sessions_of (schedule OneVehicle.final_state) "car1") (seqZ 18 150) tr.
Proof.
  assert (compute_costs_and_soc (schedule OneVehicle.final_state) OneVehicle.cars_dict ∅
            OneVehicle.energy_needs OneVehicle.initial_soc
          = Some (OneVehicle.simulation.1.1, OneVehicle.simulation.1.2,
                  OneVehicle.simulation.2)) as Hsim by (vm_compute; reflexivity).
  split; [exact Hsim|].
  pose proof (C8_trace_for_scheduled_vehicles _ _ _ _ _ _ _ _ Hsim "car1") as Hcar.
  assert (schedule OneVehicle.final_state !! "car1"
          = Some (sessions_of (schedule OneVehicle.final_state) "car1")) as Hs
    by (vm_compute; reflexivity).
  rewrite Hs in Hcar. exact Hcar.
Defined.

Lemma C9_final_soc_is_initial_witness :
  compute_costs_and_soc (schedule OneVehicle.final_state) OneVehicle.cars_dict ∅
    OneVehicle.energy_needs OneVehicle.initial_soc
    = Some (OneVehicle.simulation.1.1, OneVehicle.simulation.1.2, OneVehicle.simulation.2) ∧
  OneVehicle.simulation.1.2 !! "car1" = Some OneVehicle.initial_soc ∧
  OneVehicle.simulation.1.2 !! "car2" = None.
Proof.
  assert (compute_costs_and_soc (schedule OneVehicle.final_state) OneVehicle.cars_dict ∅
            OneVehicle.energy_needs OneVehicle.initial_soc
          = Some (OneVehicle.simulation.1.1, OneVehicle.simulation.1.2,
                  OneVehicle.simulation.2)) as Hsim by (vm_compute; reflexivity).
  split; [exact Hsim|]. split.
  - rewrite (C9_final_soc_is_initial _ _ _ _ _ _ _ _ Hsim "car1"). reflexivity.
  - rewrite (C9_final_soc_is_initial _ _ _ _ _ _ _ _ Hsim "car2"). reflexivity.
Defined.

Lemma C10_zero_need_requirement_witness :
  (energy_kwh ZeroNeed.the_requirement == 0)%Q ∧
  (∃ fl, requirements_met ZeroNeed.later_state !! "Z" = Some fl ∧ fl !! 0%nat = Some false) ∧
  car_candidates ZeroNeed.energy_needs ZeroNeed.cars_dict
    (requirements_met ZeroNeed.later_state) 23 "Z"
    = Some [requirement_candidate "Z" 0 ZeroNeed.the_requirement] ∧
  map (λ s : session, (session_hour s, Qred (session_power_kw s)))
    (sessions_of (schedule ZeroNeed.later_state) "Z")
    = [(18, 11%Q); (19, 11%Q); (20, 11%Q)].
Proof.
  assert (energy_kwh ZeroNeed.the_requirement == 0)%Q as Hzero by reflexivity.
  split; [exact Hzero|].
  destruct (C10_zero_need_requirement ZeroNeed.cars_dict ZeroNeed.requirements
              ZeroNeed.initial_soc ZeroNeed.energy_needs ZeroNeed.availability 1
              [] [18; 19; 20] (initial_state ZeroNeed.energy_needs) ZeroNeed.later_state
              "Z" [ZeroNeed.the_requirement] 0%nat ZeroNeed.the_requirement 18
              ltac:(vm_compute; reflexivity) ltac:(reflexivity)
              ltac:(vm_compute; reflexivity) ltac:(vm_compute; reflexivity)
              Hzero ltac:(vm_compute; reflexivity))
    as (_ & _ & _ & _ & Hflag & Hlater).
  split; [exact Hflag|]. split; [apply Hlater; reflexivity|].
  vm_compute. reflexivity.
Defined.

(** * Further properties of the code *)

(** ** Energy-Need Deriver: when it raises *)





(** X2. Every key of the deriver's result is a vehicle of the roster and
    has at least one requirement: "not in energy_needs" means "has no
    requirement entry". *)
Theorem X2_needs_keys_have_requirements cars_dict requirements initial_soc en car_id reqs :
  calculate_energy_needs cars_dict requirements initial_soc = Some en →
  en !! car_id = Some reqs →
  reqs ≠ [] ∧ is_Some (cars_dict !! car_id) ∧ entries_of car_id requirements ≠ [].
Proof.
  intros Hen Hr.
  destruct (derive_cars_extends _ _ _ _ _ Hen car_id) as (new & F & E & K).
  rewrite lookup_empty in E, K. rewrite Hr in E, K. simpl in E. subst new.
  assert (reqs ≠ []) as Hne by (intros ->; by specialize (K eq_refl)).
  split; [done|]. destruct reqs as [|r reqs]; [done|].
  apply Forall2_cons_inv_r in F as (e & es & (c & d & H & Hc & _) & _ & ->).
  split; [by rewrite Hc | done].
Qed.

Lemma X2_needs_keys_have_requirements_witness :
  calculate_energy_needs OneVehicle.cars_dict OneVehicle.requirements
    OneVehicle.initial_soc = Some OneVehicle.energy_needs ∧
  is_Some (OneVehicle.cars_dict !! "car1").
Proof.
  assert (calculate_energy_needs OneVehicle.cars_dict OneVehicle.requirements
            OneVehicle.initial_soc = Some OneVehicle.energy_needs) as Hen
    by (vm_compute; reflexivity).
  split; [exact Hen|].
  apply (X2_needs_keys_have_requirements _ _ _ _ "car1"
           [make_requirement (Car 50 11) OneVehicle.initial_soc 0 7 (8 # 10)%Q] Hen).
  vm_compute. reflexivity.
Defined.

(** ** Slot Scheduler: lifting an invariant of one assignment to a run *)

Lemma elem_of_available_rows (index : list string) (col : list Z) (car_id : string) :
  car_id ∈ map fst (List.filter (λ p : string * Z, p.2 =? 1) (zip index col)) ↔
  ∃ i, index !! i = Some car_id ∧ col !! i = Some 1.
Proof.
  revert col. induction index as [|x index IH]; intros [|v col]; simpl.
  - split; [by intros ?%elem_of_nil | by intros (i & ? & _)].
  - split; [by intros ?%elem_of_nil | by intros (i & ? & _)].
  - split; [by intros ?%elem_of_nil | by intros (i & _ & ?)].
  - destruct (Z.eqb_spec v 1) as [->|Hv]; simpl.
    + rewrite elem_of_cons, IH. split.
      * intros [->|(i & ? & ?)]; [by exists 0%nat | by exists (S i)].
      * intros ([|i] & Hi & Hc); simpl in *; [left; congruence | right; eauto].
    + rewrite IH. split.
      * intros (i & ? & ?). by exists (S i).
      * intros ([|i] & Hi & Hc); simpl in *; [congruence | eauto].
Qed.

Lemma hour_candidates_available energy_needs cars_dict met hour av col num_ports car_needs :
  build_car_needs energy_needs cars_dict met hour (available_cars av col) = Some car_needs →
  Forall (λ c, cand_car c ∈ available_cars av col)
    (take num_ports (prioritize car_needs)).
Proof.
  intros Hb. apply Forall_forall. intros c Hc.
  eapply elem_of_submseteq; [|by eapply build_car_needs_cars].
  eapply elem_of_submseteq;
    [|apply map_submseteq; etrans; [apply submseteq_take | apply prioritize_submseteq]].
  apply list_elem_of_In, in_map, list_elem_of_In, Hc.
Qed.

Section RunInvariant.
Context (energy_needs : gmap string (list requirement)) (av : availability_t)
        (cars_dict : gmap string car) (num_ports : nat) (all_hours : list Z)
        (P : sched_state → Prop).

(** [P] survives the assignment of one well-formed candidate of an
    available vehicle, at an hour of the run that is a column of the
    frame, while a port is free. *)
Hypothesis P_step : ∀ hour col c st st',
  hour ∈ all_hours → av_columns av !! hour = Some col →
  cand_car c ∈ available_cars av col →
  valid_candidate energy_needs cars_dict hour c → (0 <= cand_energy c)%Q →
  (port_count st hour < num_ports)%nat →
  slot_effect energy_needs hour c st st' → P st → P st'.

Lemma assign_slots_invariant hour col cands st st' :
  hour ∈ all_hours → av_columns av !! hour = Some col →
  Forall (λ c, cand_car c ∈ available_cars av col) cands →
  Forall (λ c, valid_candidate energy_needs cars_dict hour c ∧ (0 <= cand_energy c)%Q) cands →
  assign_slots energy_needs num_ports hour cands st = Some st' → P st → P st'.
Proof.
  intros Hh Hcol Hav. revert st.
  induction Hav as [|c rest Hc _ IH]; intros st Hv Hrun HP; simpl in Hrun.
  - by injection Hrun as <-.
  - apply Forall_cons in Hv as [[Hvalid Hpos] Hv].
    destruct (Nat.leb_spec num_ports (port_count st hour)); [by injection Hrun as <-|].
    destruct (assign_one energy_needs hour c st) as [st1|] eqn:E1; [|done].
    simpl in Hrun. apply (IH st1 Hv Hrun).
    eapply P_step; eauto using assign_one_effect.
Qed.

Lemma run_hours_invariant hours st st' :
  (∀ h, h ∈ hours → h ∈ all_hours) →
  run_hours energy_needs av cars_dict num_ports hours st = Some st' → P st → P st'.
Proof.
  revert st. induction hours as [|h rest IH]; intros st Hsub Hrun HP; simpl in Hrun.
  - by injection Hrun as <-.
  - destruct (schedule_hour energy_needs av cars_dict num_ports st h) as [st1|] eqn:E1; [|done].
    simpl in Hrun. apply (IH st1); [intros; apply Hsub; by right | done |].
    unfold schedule_hour in E1.
    destruct (av_columns av !! h) as [col|] eqn:Ecol; [|by injection E1 as <-].
    destruct (build_car_needs _ _ _ _ _) as [car_needs|] eqn:Eb; [|done]. simpl in E1.
    eapply assign_slots_invariant; [apply Hsub; by left | exact Ecol | | | exact E1 | exact HP].
    + by eapply hour_candidates_available.
    + by eapply hour_candidates_valid.
Qed.
End RunInvariant.

(** ** Slot Scheduler: where and how much a vehicle is charged *)

(** The session a candidate receives, if any: at the current hour, at
    most the candidate's rate, positive when the rate is, and exactly the
    rate when the need is 0. *)
Lemma slot_effect_bounds energy_needs hour c st st' :
  slot_effect energy_needs hour c st st' →
  ∃ extra,
    (∀ k, sessions_of (schedule st') k =
          sessions_of (schedule st) k ++ (if decide (k = cand_car c) then extra else [])) ∧
    Forall (λ s, session_hour s = hour ∧
                 (session_power_kw s <= cand_rate c)%Q ∧
                 ((0 < cand_rate c)%Q → (0 < session_power_kw s)%Q) ∧
                 (Qeq_bool (cand_energy c) 0 = true → session_power_kw s = cand_rate c)) extra.
Proof.
  intros [Hz ->|reqs req Hz Hr Hi Hd Hm|reqs req st2 delivered power Hz Hr Hi -> Hp Hd Hst2 ->].
  - eexists. split; [apply sessions_of_add_session|].
    constructor; [|constructor]. unfold session_hour, session_power_kw. simpl.
    repeat split; auto. lra.
  - exists []. split; [|constructor].
    intros k. apply mark_met_effect in Hm as (-> & _).
    rewrite sessions_of_touch. destruct (decide _); by rewrite app_nil_r.
  - eexists. split.
    + intros k. rewrite sessions_of_add_session.
      replace (sessions_of (schedule st2) k) with (sessions_of (schedule st) k); [done|].
      destruct Hst2 as [[_ Hm]|[_ ->]].
      * apply mark_met_effect in Hm as (-> & _). by rewrite sessions_of_touch.
      * by rewrite sessions_of_touch.
    + constructor; [|constructor]. unfold session_hour, session_power_kw. simpl.
      split; [done|].
      destruct (py_min_cases (cand_rate c)
                  (cand_energy c - energy_delivered req (sessions_of (schedule st) (cand_car c))))
        as [[Hlt He]|[Hle He]]; rewrite <- Hp in He; rewrite He;
        (split; [lra|]); (split; [intros; lra | congruence]).
Qed.

(** X3. A session is only ever given at an hour of the horizon
    [[18, total_hours)] that is a column of the availability frame, and
    to a vehicle whose cell in that column is 1. *)
Theorem X3_sessions_only_when_available energy_needs av price_dict cars_dict num_ports
    total_hours sched car_id sessions s :
  schedule_charging energy_needs av price_dict cars_dict num_ports total_hours = Some sched →
  sched !! car_id = Some sessions → s ∈ sessions →
  18 ≤ session_hour s < total_hours ∧
  ∃ col i, av_columns av !! session_hour s = Some col ∧
           av_index av !! i = Some car_id ∧ col !! i = Some 1.
Proof.
  unfold schedule_charging, schedule_charging_state.
  destruct (run_hours _ _ _ _ _ _) as [st|] eqn:Hrun; [|done]. intros [= <-] Hs Hin.
  pose (P := λ st : sched_state, ∀ k s, s ∈ sessions_of (schedule st) k →
     session_hour s ∈ horizon total_hours ∧
     ∃ col, av_columns av !! session_hour s = Some col ∧ k ∈ available_cars av col).
  assert (P st) as HP.
  { eapply (run_hours_invariant energy_needs av cars_dict num_ports (horizon total_hours) P);
      [| done | exact Hrun |].
    - intros hour col c st0 st1 Hh Hcol Hav _ _ _ Heff HP0 k s0.
      destruct (slot_effect_bounds _ _ _ _ _ Heff) as (extra & Hsess & Hextra).
      rewrite Hsess. intros [Hold|Hnew]%elem_of_app; [by apply HP0|].
      case_decide as Ek; [|by apply elem_of_nil in Hnew]. subst k.
      rewrite Forall_forall in Hextra. destruct (Hextra _ Hnew) as (-> & _). eauto.
    - intros k s0. simpl. unfold sessions_of. rewrite lookup_empty. simpl.
      by intros ?%elem_of_nil. }
  destruct (HP car_id s) as (Hh & col & Hcol & Hav).
  { unfold sessions_of. by rewrite Hs. }
  apply elem_of_seqZ in Hh. split; [lia|].
  apply elem_of_available_rows in Hav as (i & Hi & Hc). eauto.
Qed.

Lemma X3_sessions_only_when_available_witness :
  schedule_charging OneVehicle.energy_needs OneVehicle.availability ∅
    OneVehicle.cars_dict OneVehicle.num_ports OneVehicle.total_hours
    = Some (schedule OneVehicle.final_state) ∧
  18 ≤ 20 < OneVehicle.total_hours ∧
  ∃ col i, av_columns OneVehicle.availability !! 20 = Some col ∧
           av_index OneVehicle.availability !! i = Some "car1" ∧ col !! i = Some 1.
Proof.
  assert (schedule_charging OneVehicle.energy_needs OneVehicle.availability ∅
            OneVehicle.cars_dict OneVehicle.num_ports OneVehicle.total_hours
          = Some (schedule OneVehicle.final_state)) as H by (vm_compute; reflexivity).
  split; [exact H|].
  apply (X3_sessions_only_when_available _ _ _ _ _ _ _ "car1"
           (sessions_of (schedule OneVehicle.final_state) "car1")
           (20, Qminus (energy_kwh (make_requirement (Car 50 11) OneVehicle.initial_soc 0 7 (8 # 10)%Q)) (11 + 11)%Q, 1%nat) H).
  - vm_compute. reflexivity.
  - vm_compute. right. right. left.
Defined.

(** ** Slot Scheduler: the ports of an hour *)

(** The (hour, port) pair a session occupies, and the pairs of all the
    sessions of a schedule, with their multiplicity. *)
Definition session_slot (s : session) : Z * nat := (session_hour s, s.2).

Definition slots (sched : gmap string (list session)) : list (Z * nat) :=
  map_to_list sched ≫= λ kv, session_slot <$> kv.2.

Lemma slots_insert sched car_id extra :
  slots (<[car_id := sessions_of sched car_id ++ extra]> sched)
    ≡ₚ slots sched ++ (session_slot <$> extra).
Proof.
  unfold slots, sessions_of. destruct (sched !! car_id) as [old|] eqn:E; simpl.
  - rewrite <- (insert_delete_eq sched).
    rewrite map_to_list_insert by apply lookup_delete_eq.
    rewrite <- (map_to_list_delete sched car_id old E).
    rewrite !bind_cons. simpl. rewrite fmap_app.
    rewrite <- !app_assoc. apply Permutation_app_head, Permutation_app_comm.
  - rewrite map_to_list_insert by done. rewrite bind_cons. simpl.
    apply Permutation_app_comm.
Qed.

Lemma elem_of_slots sched hp :
  hp ∈ slots sched ↔
  ∃ car_id sessions s, sched !! car_id = Some sessions ∧ s ∈ sessions ∧ hp = session_slot s.
Proof.
  unfold slots. rewrite list_elem_of_bind. split.
  - intros ([k l] & Hin & Hkl). apply elem_of_map_to_list in Hkl.
    apply list_elem_of_fmap in Hin as (s & -> & Hs). eauto 10.
  - intros (k & l & s & Hk & Hs & ->). exists (k, l). split.
    + apply list_elem_of_fmap. eauto.
    + by apply elem_of_map_to_list.
Qed.

(** No (hour, port) pair is used twice, and every port of an hour is
    between 1 and the hour's counter. *)
Definition ports_distinct (st : sched_state) : Prop :=
  NoDup (slots (schedule st)) ∧
  ∀ hp, hp ∈ slots (schedule st) → (1 ≤ hp.2 ≤ port_count st hp.1)%nat.

Lemma slot_effect_ports_distinct energy_needs hour c st st' :
  slot_effect energy_needs hour c st st' → ports_distinct st → ports_distinct st'.
Proof.
  intros Heff [Hnd Hrange].
  apply slot_effect_schedule in Heff as (extra & Hs & [[-> Hp]|(power & -> & Hp)]).
  - rewrite app_nil_r in Hs. split.
    + rewrite Hs. rewrite <- (app_nil_r (sessions_of _ _)), slots_insert. simpl.
      by rewrite app_nil_r.
    + intros hp Hin. unfold port_count. rewrite Hp. apply Hrange.
      rewrite Hs in Hin. rewrite <- (app_nil_r (sessions_of _ _)), slots_insert in Hin.
      simpl in Hin. by rewrite app_nil_r in Hin.
  - assert (∀ h, (port_count st h ≤ port_count st' h)%nat ∧
                 port_count st' hour = S (port_count st hour)) as Hcount.
    { intros h. unfold port_count at 2 3. rewrite Hp. rewrite lookup_insert_eq. simpl.
      split; [|done]. destruct (decide (h = hour)) as [->|].
      - rewrite lookup_insert_eq. simpl. lia.
      - rewrite lookup_insert_ne by done. done. }
    split.
    + rewrite Hs, slots_insert. simpl. apply NoDup_app. split; [done|]. split.
      * intros hp Hin [->|[]%elem_of_nil]%elem_of_cons.
        specialize (Hrange _ Hin). unfold session_slot, session_hour in Hrange.
        simpl in Hrange. lia.
      * apply NoDup_singleton.
    + intros hp Hin. rewrite Hs, slots_insert in Hin. simpl in Hin.
      apply elem_of_app in Hin as [Hin|Hin].
      * specialize (Hrange _ Hin). destruct (Hcount hp.1). lia.
      * apply list_elem_of_singleton in Hin as ->. unfold session_slot, session_hour.
        simpl. destruct (Hcount hour) as [_ ->]. lia.
Qed.

(** X4. In the schedule no two sessions, of the same or of different
    vehicles, occupy the same port in the same hour, and every port
    number lies between 1 and [num_ports]. *)
Theorem X4_ports_distinct_and_in_range energy_needs av price_dict cars_dict num_ports
    total_hours sched :
  schedule_charging energy_needs av price_dict cars_dict num_ports total_hours = Some sched →
  NoDup (slots sched) ∧
  ∀ car_id sessions s, sched !! car_id = Some sessions → s ∈ sessions →
    (1 ≤ s.2 ≤ num_ports)%nat.
Proof.
  unfold schedule_charging, schedule_charging_state.
  destruct (run_hours _ _ _ _ _ _) as [st|] eqn:Hrun; [|done]. intros [= <-].
  assert (ports_distinct st) as [Hnd Hrange].
  { eapply (run_hours_invariant energy_needs av cars_dict num_ports (horizon total_hours)
              ports_distinct); [| done | exact Hrun |].
    - intros hour col c st0 st1 _ _ _ _ _ _ Heff. by eapply slot_effect_ports_distinct.
    - split; simpl.
      + unfold slots. rewrite map_to_list_empty. constructor.
      + intros hp. unfold slots. rewrite map_to_list_empty. by intros ?%elem_of_nil. }
  split; [done|]. intros car_id sessions s Hs Hin.
  specialize (Hrange (session_slot s)). simpl in Hrange.
  assert (ports_respected num_ports st) as Hports.
  { eapply run_hours_ports; [exact Hrun | apply initial_state_ports]. }
  destruct (Hports (session_hour s)) as [_ Hle].
  assert (session_slot s ∈ slots (schedule st)) as Hslot.
  { apply elem_of_slots. by exists car_id, sessions, s. }
  specialize (Hrange Hslot). lia.
Qed.

Lemma X4_ports_distinct_and_in_range_witness :
  schedule_charging Duel.energy_needs (Duel.availability ["A"; "B"]) ∅ Duel.cars_dict 2 19
    = Some (default ∅ (schedule_charging Duel.energy_needs
                         (Duel.availability ["A"; "B"]) ∅ Duel.cars_dict 2 19)) ∧
  slots (default ∅ (schedule_charging Duel.energy_needs
                      (Duel.availability ["A"; "B"]) ∅ Duel.cars_dict 2 19))
    ≡ₚ [(18, 1%nat); (18, 2%nat)] ∧
  NoDup (slots (default ∅ (schedule_charging Duel.energy_needs
                             (Duel.availability ["A"; "B"]) ∅ Duel.cars_dict 2 19))).
Proof.
  assert (schedule_charging Duel.energy_needs (Duel.availability ["A"; "B"]) ∅
            Duel.cars_dict 2 19
          = Some (default ∅ (schedule_charging Duel.energy_needs
                               (Duel.availability ["A"; "B"]) ∅ Duel.cars_dict 2 19))) as H
    by (vm_compute; reflexivity).
  split; [exact H|]. split.
  - vm_compute. reflexivity.
  - apply (X4_ports_distinct_and_in_range _ _ _ _ _ _ _ H).
Defined.

(** X5. A vehicle without requirement is always charged at exactly its
    max charge rate, and only if it is in the roster. *)
Theorem X5_no_requirement_charges_at_max_rate energy_needs av price_dict cars_dict
    num_ports total_hours sched car_id sessions s :
  schedule_charging energy_needs av price_dict cars_dict num_ports total_hours = Some sched →
  energy_needs !! car_id = None →
  sched !! car_id = Some sessions → s ∈ sessions →
  ∃ v, cars_dict !! car_id = Some v ∧ session_power_kw s = max_charge_rate_kW v.
Proof.
  unfold schedule_charging, schedule_charging_state.
  destruct (run_hours _ _ _ _ _ _) as [st|] eqn:Hrun; [|done]. intros [= <-] Hnone Hs Hin.
  pose (P := λ st : sched_state, ∀ k s, energy_needs !! k = None →
     s ∈ sessions_of (schedule st) k →
     ∃ v, cars_dict !! k = Some v ∧ session_power_kw s = max_charge_rate_kW v).
  assert (P st) as HP.
  { eapply (run_hours_invariant energy_needs av cars_dict num_ports (horizon total_hours) P);
      [| done | exact Hrun |].
    - intros hour col c st0 st1 _ _ _ Hvalid _ _ Heff HP0 k s0 Hk.
      destruct (slot_effect_bounds _ _ _ _ _ Heff) as (extra & Hsess & Hextra).
      rewrite Hsess. intros [Hold|Hnew]%elem_of_app; [by apply HP0|].
      case_decide as Ek; [|by apply elem_of_nil in Hnew]. subst k.
      destruct Hvalid as [(reqs & _ & _ & Hr & _)|(_ & _ & He & v & Hv & Hrate)]; [congruence|].
      rewrite Forall_forall in Hextra. destruct (Hextra _ Hnew) as (_ & _ & _ & Hmax).
      exists v. split; [done|]. rewrite <- Hrate. apply Hmax. by rewrite He.
    - intros k s0 _. simpl. unfold sessions_of. rewrite lookup_empty. simpl.
      by intros ?%elem_of_nil. }
  apply (HP car_id s Hnone). unfold sessions_of. by rewrite Hs.
Qed.

Lemma X5_no_requirement_charges_at_max_rate_witness :
  schedule_charging Duel.energy_needs (Duel.availability ["A"; "B"]) ∅ Duel.cars_dict 2 19
    = Some (default ∅ (schedule_charging Duel.energy_needs
                         (Duel.availability ["A"; "B"]) ∅ Duel.cars_dict 2 19)) ∧
  ∃ v, Duel.cars_dict !! "B" = Some v ∧
       session_power_kw (18, 22%Q, 2%nat) = max_charge_rate_kW v.
Proof.
  assert (schedule_charging Duel.energy_needs (Duel.availability ["A"; "B"]) ∅
            Duel.cars_dict 2 19
          = Some (default ∅ (schedule_charging Duel.energy_needs
                               (Duel.availability ["A"; "B"]) ∅ Duel.cars_dict 2 19))) as H
    by (vm_compute; reflexivity).
  split; [exact H|].
  apply (X5_no_requirement_charges_at_max_rate _ _ _ _ _ _ _ "B"
           [(18, 22%Q, 2%nat)] (18, 22%Q, 2%nat) H).
  - vm_compute. reflexivity.
  - vm_compute. reflexivity.
  - left.
Defined.

(** X6. A vehicle with requirements is charged only at an hour inside
    the eligibility window of one of its requirements, at a power that
    does not exceed that requirement's max rate, and that is positive
    when this rate is. *)
Theorem X6_requirement_sessions_in_window energy_needs av price_dict cars_dict
    num_ports total_hours sched car_id reqs sessions s :
  schedule_charging energy_needs av price_dict cars_dict num_ports total_hours = Some sched →
  energy_needs !! car_id = Some reqs →
  sched !! car_id = Some sessions → s ∈ sessions →
  ∃ r, r ∈ reqs ∧
       prior_day_start r ≤ session_hour s < prior_day_end r ∧
       (session_power_kw s <= max_rate_kw r)%Q ∧
       ((0 < max_rate_kw r)%Q → (0 < session_power_kw s)%Q).
Proof.
  unfold schedule_charging, schedule_charging_state.
  destruct (run_hours _ _ _ _ _ _) as [st|] eqn:Hrun; [|done]. intros [= <-] Hreqs Hs Hin.
  pose (P := λ st : sched_state, ∀ k rs s, energy_needs !! k = Some rs →
     s ∈ sessions_of (schedule st) k →
     ∃ r, r ∈ rs ∧ window_contains r (session_hour s) = true ∧
          (session_power_kw s <= max_rate_kw r)%Q ∧
          ((0 < max_rate_kw r)%Q → (0 < session_power_kw s)%Q)).
  assert (P st) as HP.
  { eapply (run_hours_invariant energy_needs av cars_dict num_ports (horizon total_hours) P);
      [| done | exact Hrun |].
    - intros hour col c st0 st1 _ _ _ Hvalid _ _ Heff HP0 k rs s0 Hk.
      destruct (slot_effect_bounds _ _ _ _ _ Heff) as (extra & Hsess & Hextra).
      rewrite Hsess. intros [Hold|Hnew]%elem_of_app; [by eapply HP0|].
      case_decide as Ek; [|by apply elem_of_nil in Hnew]. subst k.
      destruct Hvalid as [(rs0 & i & req & Hr & _ & Hreq & _ & Hrate & Hw)|(Hn & _)];
        [|congruence].
      rewrite Hk in Hr. injection Hr as <-.
      rewrite Forall_forall in Hextra. destruct (Hextra _ Hnew) as (-> & Hle & Hpos & _).
      exists req. rewrite <- Hrate. split; [by eapply list_elem_of_lookup_2 | auto].
    - intros k rs s0 _. simpl. unfold sessions_of. rewrite lookup_empty. simpl.
      by intros ?%elem_of_nil. }
  destruct (HP car_id reqs s Hreqs) as (r & Hr & Hw & Hle & Hpos).
  { unfold sessions_of. by rewrite Hs. }
  exists r. split; [done|]. split; [|done].
  unfold window_contains in Hw. apply andb_true_iff in Hw as [?%Z.leb_le ?%Z.ltb_lt]. lia.
Qed.

Lemma X6_requirement_sessions_in_window_witness :
  schedule_charging Duel.energy_needs (Duel.availability ["A"; "B"]) ∅ Duel.cars_dict 2 19
    = Some (default ∅ (schedule_charging Duel.energy_needs
                         (Duel.availability ["A"; "B"]) ∅ Duel.cars_dict 2 19)) ∧
  ∃ r, r ∈ default [] (Duel.energy_needs !! "A") ∧
       prior_day_start r ≤ 18 < prior_day_end r ∧
       (5 <= max_rate_kw r)%Q ∧ ((0 < max_rate_kw r)%Q → (0 < 5)%Q).
Proof.
  assert (schedule_charging Duel.energy_needs (Duel.availability ["A"; "B"]) ∅
            Duel.cars_dict 2 19
          = Some (default ∅ (schedule_charging Duel.energy_needs
                               (Duel.availability ["A"; "B"]) ∅ Duel.cars_dict 2 19))) as H
    by (vm_compute; reflexivity).
  split; [exact H|].
  apply (X6_requirement_sessions_in_window _ _ _ _ _ _ _ "A"
           (default [] (Duel.energy_needs !! "A")) [(18, 5%Q, 1%nat)] (18, 5%Q, 1%nat) H).
  - vm_compute. reflexivity.
  - vm_compute. reflexivity.
  - left.
Defined.

(** ** Slot Scheduler: a requirement gets exactly its need *)

Lemma energy_delivered_outside r sessions extra :
  Forall (λ s, window_contains r (session_hour s) = false) extra →
  energy_delivered r (sessions ++ extra) = energy_delivered r sessions.
Proof.
  intros H. revert sessions. induction H as [|s extra Hs _ IH]; intros sessions.
  - by rewrite app_nil_r.
  - rewrite (cons_middle s), app_assoc, IH, energy_delivered_snoc. by rewrite Hs.
Qed.

(** The flags after one candidate: unchanged, or the flag of the
    candidate's own requirement raised. *)
Lemma slot_effect_met energy_needs hour c st st' j :
  slot_effect energy_needs hour c st st' → cand_index c = Z.of_nat j →
  requirements_met st' = requirements_met st ∨
  ∃ fl, requirements_met st !! cand_car c = Some fl ∧ (j < length fl)%nat ∧
        requirements_met st' = <[cand_car c := <[j := true]> fl]> (requirements_met st).
Proof.
  intros Heff Hj.
  assert (∀ st2, mark_met (cand_car c) (cand_index c) (touch_schedule (cand_car c) st) = Some st2 →
            ∃ fl, requirements_met st !! cand_car c = Some fl ∧ (j < length fl)%nat ∧
                  requirements_met st2 = <[cand_car c := <[j := true]> fl]> (requirements_met st))
    as Hmark.
  { intros st2 (_ & _ & fl & fl' & Hfl & Hset & Hmet)%mark_met_effect.
    rewrite Hj in Hset. apply py_setitem_nat in Hset as [Hlt ->]. eauto. }
  destruct Heff as [Hz ->|reqs req Hz Hr Hi Hd Hm|reqs req st2 delivered power Hz Hr Hi -> -> Hd Hst2 ->].
  - by left.
  - right. by apply Hmark.
  - simpl. destruct Hst2 as [[_ Hm]|[_ ->]]; [right; by apply Hmark | by left].
Qed.

Section ExactDelivery.
Context (energy_needs : gmap string (list requirement)) (cars_dict : gmap string car)
        (car_id : string) (reqs : list requirement) (i : nat) (r : requirement).
Hypothesis Hreqs : energy_needs !! car_id = Some reqs.
Hypothesis Hreq : reqs !! i = Some r.
Hypothesis Hpositive : (0 < energy_kwh r)%Q.
(** No other requirement of the vehicle has a window that meets the
    window of [r]. *)
Hypothesis Halone : ∀ j rj h, reqs !! j = Some rj →
  window_contains rj h = true → window_contains r h = true → j = i.

(** The energy delivered in the window of [r] does not exceed its need,
    and the flag of [r] is up exactly when the need is covered. *)
Definition delivery_exact (st : sched_state) : Prop :=
  (energy_delivered r (sessions_of (schedule st) car_id) <= energy_kwh r)%Q ∧
  ∀ fl, requirements_met st !! car_id = Some fl →
    (fl !! i = Some true ↔
     (energy_kwh r <= energy_delivered r (sessions_of (schedule st) car_id))%Q).

Lemma slot_effect_delivery_exact hour c st st' :
  valid_candidate energy_needs cars_dict hour c →
  slot_effect energy_needs hour c st st' →
  delivery_exact st → delivery_exact st'.
Proof.
  intros Hvalid Heff [HI2 HI3].
  destruct (decide (cand_car c = car_id)) as [Ecar|Ecar].
  2: { (* another vehicle *)
    destruct (slot_effect_bounds _ _ _ _ _ Heff) as (extra & Hsess & _).
    assert (requirements_met st' !! car_id = requirements_met st !! car_id) as Hmet.
    { destruct Hvalid as [(rs0 & j & req & _ & Hidx & _)|(_ & _ & He & _)].
      - destruct (slot_effect_met _ _ _ _ _ j Heff Hidx) as [->|(fl & _ & _ & ->)]; [done|].
        by rewrite lookup_insert_ne.
      - destruct Heff as [_ ->|? ? Hz _ _ _ _|? ? ? ? ? Hz _ _ _ _ _ _ _];
          [done | rewrite He in Hz; done..]. }
    unfold delivery_exact. rewrite Hsess, Hmet, decide_False by done.
    rewrite app_nil_r. by split. }
  destruct Hvalid as [(rs0 & j & req & Hr0 & Hidx & Hreqj & He & _ & Hw)|(Hnone & _)];
    [|congruence].
  rewrite Ecar, Hreqs in Hr0. injection Hr0 as <-.
  destruct (decide (j = i)) as [->|Hji].
  2: { (* another requirement of the vehicle *)
    destruct (slot_effect_bounds _ _ _ _ _ Heff) as (extra & Hsess & Hextra).
    assert (energy_delivered r (sessions_of (schedule st') car_id)
            = energy_delivered r (sessions_of (schedule st) car_id)) as HD.
    { rewrite Hsess, decide_True by done. apply energy_delivered_outside.
      eapply Forall_impl; [exact Hextra|]. intros s (-> & _).
      destruct (window_contains r hour) eqn:Ew; [|done].
      exfalso. apply Hji. by eapply Halone. }
    unfold delivery_exact. rewrite HD. split; [done|]. intros fl' Hfl'.
    destruct (slot_effect_met _ _ _ _ _ j Heff Hidx) as [Hsame|(fl & Hfl & _ & Hmet)].
    - rewrite Hsame in Hfl'. by apply HI3.
    - rewrite Hmet, Ecar, lookup_insert_eq in Hfl'. injection Hfl' as <-.
      rewrite list_lookup_insert_ne by done. apply HI3. by rewrite <- Ecar. }
  (* the requirement itself *)
  rewrite Hreq in Hreqj. injection Hreqj as <-.
  destruct Heff as [Hz ->|rs req Hz Hr Hi Hd Hm|rs req st2 delivered power Hz Hr Hi -> Hp Hd Hst2 ->].
  - apply Qeq_bool_iff in Hz. rewrite He in Hz. lra.
  - rewrite Ecar, Hreqs in Hr. injection Hr as <-.
    rewrite Hidx, py_index_nat, Hreq in Hi. injection Hi as <-.
    rewrite Ecar, He in Hd.
    pose proof Hm as (Hs & _ & fl & fl' & Hfl & Hset & Hmet)%mark_met_effect.
    rewrite Hidx in Hset. apply py_setitem_nat in Hset as [Hlt ->].
    unfold delivery_exact. rewrite Hs, sessions_of_touch. split; [done|].
    intros fl2 Hfl2. rewrite Hmet, Ecar, lookup_insert_eq in Hfl2. injection Hfl2 as <-.
    rewrite list_lookup_insert_eq by done. by split.
  - rewrite Ecar, Hreqs in Hr. injection Hr as <-.
    rewrite Hidx, py_index_nat, Hreq in Hi. injection Hi as <-.
    rewrite Ecar, He in Hd, Hp, Hst2.
    set (D := energy_delivered r (sessions_of (schedule st) car_id)) in *.
    assert (energy_delivered r
              (sessions_of (schedule (add_session (cand_car c) hour power
                                        (S (port_count st hour)) st2)) car_id)
            = (D + power)%Q) as HD.
    { rewrite sessions_of_add_session, decide_True by done.
      replace (sessions_of (schedule st2) car_id) with (sessions_of (schedule st) car_id).
      - rewrite energy_delivered_snoc. unfold session_hour, session_power_kw. simpl.
        by rewrite Hw.
      - destruct Hst2 as [[_ Hm]|[_ ->]].
        + apply mark_met_effect in Hm as (-> & _). by rewrite sessions_of_touch.
        + by rewrite sessions_of_touch. }
    assert (power <= energy_kwh r - D)%Q as Hle.
    { destruct (py_min_cases (cand_rate c) (energy_kwh r - D)) as [[? E]|[? E]];
        rewrite <- Hp in E; rewrite E; lra. }
    unfold delivery_exact. rewrite HD. split; [lra|].
    intros fl2 Hfl2. simpl in Hfl2.
    destruct Hst2 as [[Hfull Hm]|[Hshort ->]].
    + apply mark_met_effect in Hm as (_ & _ & fl & fl' & Hfl & Hset & Hmet).
      rewrite Hidx in Hset. apply py_setitem_nat in Hset as [Hlt ->].
      rewrite Hmet, lookup_insert_eq in Hfl2. injection Hfl2 as <-.
      rewrite list_lookup_insert_eq by done. by split.
    + simpl in Hfl2. split.
      * intros Hup. apply (HI3 _ Hfl2) in Hup. fold D in Hup. lra.
      * intros Hfull. lra.
Qed.
End ExactDelivery.

(** The validation pass of [output_results] (lines 220-226) for one
    requirement: the energy delivered in its window, and the verdict
    "Met". *)
Definition requirement_check (sched : gmap string (list session)) (car_id : string)
    (r : requirement) : Q * bool :=
  let delivered := energy_delivered r (sessions_of sched car_id) in
  (delivered, Qle_bool (energy_kwh r) delivered).

Lemma initial_state_delivery_exact energy_needs car_id reqs i r :
  energy_needs !! car_id = Some reqs → (0 < energy_kwh r)%Q →
  delivery_exact car_id i r (initial_state energy_needs).
Proof.
  intros Hreqs Hpos. unfold delivery_exact. simpl. unfold sessions_of.
  rewrite lookup_empty. simpl. change (energy_delivered r []) with 0%Q.
  split; [lra|]. intros fl Hfl. rewrite lookup_fmap, Hreqs in Hfl. injection Hfl as <-.
  split; [|intros; lra]. by intros [[=] _]%lookup_replicate.
Qed.

(** X7. Take a requirement with a positive need whose window meets the
    window of no other requirement of its vehicle.  Whatever the
    scheduler does, the energy it delivers in the window never exceeds
    the need; the requirement's flag is up at the end exactly when the
    validation pass of [output_results] reports it as met; and a met
    requirement received exactly its need. *)
Theorem X7_isolated_requirement_gets_exactly_its_need energy_needs av cars_dict num_ports
    total_hours st car_id reqs i r fl :
  energy_needs !! car_id = Some reqs → reqs !! i = Some r →
  (0 < energy_kwh r)%Q →
  (∀ j rj h, reqs !! j = Some rj →
     window_contains rj h = true → window_contains r h = true → j = i) →
  schedule_charging_state energy_needs av cars_dict num_ports total_hours = Some st →
  requirements_met st !! car_id = Some fl →
  ((requirement_check (schedule st) car_id r).1 <= energy_kwh r)%Q ∧
  (fl !! i = Some true ↔ (requirement_check (schedule st) car_id r).2 = true) ∧
  ((requirement_check (schedule st) car_id r).2 = true →
     (requirement_check (schedule st) car_id r).1 == energy_kwh r)%Q.
Proof.
  intros Hreqs Hreq Hpos Halone Hrun Hfl.
  assert (delivery_exact car_id i r st) as [HI2 HI3].
  { eapply (run_hours_invariant energy_needs av cars_dict num_ports (horizon total_hours)
              (delivery_exact car_id i r)); [| done | exact Hrun |].
    - intros hour col c st0 st1 _ _ _ Hvalid _ _ Heff.
      by eapply slot_effect_delivery_exact.
    - by eapply initial_state_delivery_exact. }
  unfold requirement_check. simpl. split; [done|]. split.
  - rewrite (HI3 _ Hfl). symmetry. apply Qle_bool_iff.
  - intros Hmet%Qle_bool_iff. lra.
Qed.

Lemma X7_isolated_requirement_gets_exactly_its_need_witness :
  schedule_charging_state OneVehicle.energy_needs OneVehicle.availability
    OneVehicle.cars_dict OneVehicle.num_ports OneVehicle.total_hours
    = Some OneVehicle.final_state ∧
  ((requirement_check (schedule OneVehicle.final_state) "car1"
      (make_requirement (Car 50 11) OneVehicle.initial_soc 0 7 (8 # 10)%Q)).1
   == (600 # 19))%Q.
Proof.
  assert (schedule_charging_state OneVehicle.energy_needs OneVehicle.availability
            OneVehicle.cars_dict OneVehicle.num_ports OneVehicle.total_hours
          = Some OneVehicle.final_state) as Hrun by (vm_compute; reflexivity).
  split; [exact Hrun|].
  destruct (X7_isolated_requirement_gets_exactly_its_need OneVehicle.energy_needs
              OneVehicle.availability OneVehicle.cars_dict OneVehicle.num_ports
              OneVehicle.total_hours OneVehicle.final_state "car1"
              [make_requirement (Car 50 11) OneVehicle.initial_soc 0 7 (8 # 10)%Q] 0%nat
              (make_requirement (Car 50 11) OneVehicle.initial_soc 0 7 (8 # 10)%Q) [true])
    as (_ & _ & Hexact).
  - vm_compute. reflexivity.
  - reflexivity.
  - reflexivity.
  - intros [|j] rj h Hj _ _; [done | by destruct j].
  - exact Hrun.
  - vm_compute. reflexivity.
  - rewrite Hexact; [reflexivity | vm_compute; reflexivity].
Defined.

(** ** Slot Scheduler: when it raises *)

(** Every vehicle that is available at an hour of the horizon has
    requirements or is in the roster. *)
Definition available_rows_known (energy_needs : gmap string (list requirement))
    (av : availability_t) (cars_dict : gmap string car) (hours : list Z) : Prop :=
  ∀ h col car_id, h ∈ hours → av_columns av !! h = Some col →
    car_id ∈ available_cars av col →
    is_Some (energy_needs !! car_id) ∨ is_Some (cars_dict !! car_id).

Lemma build_car_needs_known energy_needs cars_dict met hour available car_needs :
  build_car_needs energy_needs cars_dict met hour available = Some car_needs →
  ∀ car_id, car_id ∈ available →
    is_Some (energy_needs !! car_id) ∨ is_Some (cars_dict !! car_id).
Proof.
  revert car_needs. induction available as [|x rest IH]; intros car_needs Hb car_id Hin.
  - by apply elem_of_nil in Hin.
  - simpl in Hb.
    destruct (car_candidates energy_needs cars_dict met hour x) as [cs|] eqn:Ec; [|done].
    simpl in Hb.
    destruct (build_car_needs energy_needs cars_dict met hour rest) as [more|] eqn:Em; [|done].
    apply elem_of_cons in Hin as [->|Hin]; [|by eapply IH].
    unfold car_candidates in Ec. destruct (energy_needs !! x); [left; eauto|].
    destruct (cars_dict !! x); [right; eauto | done].
Qed.

Lemma run_hours_known energy_needs av cars_dict num_ports hours st st' :
  run_hours energy_needs av cars_dict num_ports hours st = Some st' →
  available_rows_known energy_needs av cars_dict hours.
Proof.
  revert st. induction hours as [|h0 rest IH]; intros st Hrun h col car_id Hh Hcol Hav.
  - by apply elem_of_nil in Hh.
  - simpl in Hrun.
    destruct (schedule_hour energy_needs av cars_dict num_ports st h0) as [st1|] eqn:E1; [|done].
    simpl in Hrun. apply elem_of_cons in Hh as [->|Hh]; [|by eapply IH].
    unfold schedule_hour in E1. rewrite Hcol in E1.
    destruct (build_car_needs _ _ _ _ _) as [car_needs|] eqn:Eb; [|done].
    by eapply build_car_needs_known.
Qed.

Lemma run_hours_returns energy_needs av cars_dict num_ports hours st :
  available_rows_known energy_needs av cars_dict hours → flags_shaped energy_needs st →
  is_Some (run_hours energy_needs av cars_dict num_ports hours st).
Proof.
  revert st. induction hours as [|h0 rest IH]; intros st Hknown Hshape; simpl; [eauto|].
  assert (is_Some (schedule_hour energy_needs av cars_dict num_ports st h0)) as [st1 E1].
  { unfold schedule_hour. destruct (av_columns av !! h0) as [col|] eqn:Ecol; [|eauto].
    destruct (build_car_needs_total energy_needs cars_dict st h0 (available_cars av col) Hshape)
      as [car_needs Hb].
    { intros k Hk. eapply Hknown; [by left | done | done]. }
    rewrite Hb. simpl. eapply assign_slots_total; [|done].
    eapply Forall_impl; [by eapply hour_candidates_valid|]. by intros c [? _]. }
  rewrite E1. simpl. apply IH; [|by eapply schedule_hour_shaped].
  intros h col k Hh. apply Hknown. by right.
Qed.

(** X8. The scheduler returns a schedule exactly when every vehicle that
    is available (cell 1) at an hour of the horizon that is a column of
    the frame has requirements or is in the roster; otherwise the max
    rate lookup of line 82 fails. *)
Theorem X8_scheduler_returns_iff_rows_known energy_needs av price_dict cars_dict
    num_ports total_hours :
  is_Some (schedule_charging energy_needs av price_dict cars_dict num_ports total_hours) ↔
  available_rows_known energy_needs av cars_dict (horizon total_hours).
Proof.
  unfold schedule_charging, schedule_charging_state. split.
  - intros [sched Hs].
    destruct (run_hours _ _ _ _ _ _) as [st|] eqn:Hrun; [|done]. by eapply run_hours_known.
  - intros Hknown.
    destruct (run_hours_returns energy_needs av cars_dict num_ports (horizon total_hours)
                (initial_state energy_needs) Hknown (initial_state_shaped _)) as [st ->].
    simpl. eauto.
Qed.

(** ** SoC/Cost Simulator: the recorded state of charge *)

Definition record_soc (r : trace_record) : Q := r.2.

Lemma py_min_le_l (a b : Q) : (py_min a b <= a)%Q.
Proof. destruct (py_min_cases a b) as [[? ->]|[? ->]]; lra. Qed.

Lemma py_min_glb (a b x : Q) : (x <= a)%Q → (x <= b)%Q → (x <= py_min a b)%Q.
Proof. intros. by destruct (py_min_cases a b) as [[? ->]|[? ->]]. Qed.

Lemma session_power_nonneg sessions hour :
  Forall (λ s, (0 <= session_power_kw s)%Q) sessions →
  (0 <= session_power sessions hour)%Q.
Proof.
  intros H. unfold session_power.
  destruct (List.find _ sessions) as [s|] eqn:E; [|lra].
  apply find_some in E as [Hin _]. rewrite Forall_forall in H.
  apply (H s). by apply list_elem_of_In.
Qed.

Lemma simulate_hours_soc car_reqs capacity price_dict initial_soc sessions hours s s' :
  simulate_hours car_reqs capacity price_dict initial_soc sessions hours s = Some s' →
  (Forall (λ r, (record_soc r <= 1)%Q) (hourly s) →
   Forall (λ r, (record_soc r <= 1)%Q) (hourly s')) ∧
  ((0 < capacity)%Q → (initial_soc <= 1)%Q →
   Forall (λ x, (0 <= session_power_kw x)%Q) sessions →
   (initial_soc <= current_soc s)%Q →
   Forall (λ r, (initial_soc <= record_soc r)%Q) (hourly s) →
   Forall (λ r, (initial_soc <= record_soc r)%Q) (hourly s')).
Proof.
  revert s. induction hours as [|h rest IH]; intros s Hrun; simpl in Hrun.
  - by injection Hrun as <-.
  - destruct (simulate_hour car_reqs capacity price_dict initial_soc sessions s h)
      as [s1|] eqn:E1; [|done].
    simpl in Hrun. destruct (IH _ Hrun) as [IHle IHge].
    unfold simulate_hour in E1. destruct (Qeq_bool capacity 0); [done|].
    injection E1 as <-. simpl in *. split.
    + intros Hle. apply IHle, Forall_app. split; [done|].
      constructor; [|constructor]. apply py_min_le_l.
    + intros Hcap Hinit Hpow Hcur Hge.
      assert (0 <= session_power sessions h * charge_efficiency / capacity)%Q as Hadd.
      { apply Qle_shift_div_l; [done|]. rewrite Qmult_0_l.
        apply Qmult_le_0_compat; [by apply session_power_nonneg | discriminate]. }
      set (base := if existsb _ _ then initial_soc else _) in *.
      assert (initial_soc <= base)%Q as Hbase.
      { subst base. destruct (existsb _ _); [lra|]. destruct (_ && _); lra. }
      assert (initial_soc
              <= py_min 1 (base + session_power sessions h * charge_efficiency / capacity))%Q
        as Hnew by (apply py_min_glb; lra).
      apply IHge; try done. apply Forall_app. split; [done|].
      constructor; [done | constructor].
Qed.

(** X9. The state of charge recorded in a trace never exceeds 1; and
    when the vehicle's capacity is positive, the initial SoC is at most 1
    and no session has a negative power, it never falls below the initial
    SoC. *)
Theorem X9_recorded_soc_bounds sched cars_dict price_dict energy_needs initial_soc
    cost_summary final_soc hourly_soc car_id sessions c tr rec :
  compute_costs_and_soc sched cars_dict price_dict energy_needs initial_soc
    = Some (cost_summary, final_soc, hourly_soc) →
  sched !! car_id = Some sessions → cars_dict !! car_id = Some c →
  hourly_soc !! car_id = Some tr → rec ∈ tr →
  (record_soc rec <= 1)%Q ∧
  ((0 < capacity_kWh c)%Q → (initial_soc <= 1)%Q →
   Forall (λ s, (0 <= session_power_kw s)%Q) sessions →
   (initial_soc <= record_soc rec)%Q).
Proof.
  intros Hrun Hs Hc Htr Hrec.
  destruct (compute_costs_and_soc_car _ _ _ _ _ _ _ _ car_id Hrun) as [_ Hcar].
  rewrite Hs in Hcar. destruct Hcar as (s & Hsim & Hlook & _).
  rewrite Htr in Hlook. injection Hlook as ->.
  unfold simulate_car in Hsim. rewrite Hc in Hsim.
  apply simulate_hours_soc in Hsim as [Hle Hge]. simpl in *. split.
  - specialize (Hle ltac:(constructor)). rewrite Forall_forall in Hle. by apply Hle.
  - intros Hcap Hinit Hpow.
    specialize (Hge Hcap Hinit Hpow ltac:(lra) ltac:(constructor)).
    rewrite Forall_forall in Hge. by apply Hge.
Qed.

Lemma X9_recorded_soc_bounds_witness :
  compute_costs_and_soc (schedule OneVehicle.final_state) OneVehicle.cars_dict ∅
    OneVehicle.energy_needs OneVehicle.initial_soc
    = Some (OneVehicle.simulation.1.1, OneVehicle.simulation.1.2, OneVehicle.simulation.2) ∧
  ∃ rec, default [] (OneVehicle.simulation.2 !! "car1") !! 2%nat = Some rec ∧
         (record_soc rec <= 1)%Q ∧ (OneVehicle.initial_soc <= record_soc rec)%Q.
Proof.
  assert (compute_costs_and_soc (schedule OneVehicle.final_state) OneVehicle.cars_dict ∅
            OneVehicle.energy_needs OneVehicle.initial_soc
          = Some (OneVehicle.simulation.1.1, OneVehicle.simulation.1.2,
                  OneVehicle.simulation.2)) as Hsim by (vm_compute; reflexivity).
  split; [exact Hsim|].
  destruct (default [] (OneVehicle.simulation.2 !! "car1") !! 2%nat) as [rec|] eqn:Erec;
    [|vm_compute in Erec; discriminate].
  exists rec. split; [done|].
  destruct (X9_recorded_soc_bounds _ _ _ _ _ _ _ _ "car1"
              (sessions_of (schedule OneVehicle.final_state) "car1") (Car 50 11)
              (default [] (OneVehicle.simulation.2 !! "car1")) rec Hsim) as [Hle Hge].
  - vm_compute. reflexivity.
  - vm_compute. reflexivity.
  - vm_compute. reflexivity.
  - by eapply list_elem_of_lookup_2.
  - split; [exact Hle|]. apply Hge.
    + reflexivity.
    + vm_compute. discriminate.
    + vm_compute. repeat constructor; discriminate.
Defined.

(** ** SoC/Cost Simulator: when it raises, and what it bills *)

Lemma simulate_hours_capacity car_reqs capacity price_dict initial_soc sessions hours s s' :
  hours ≠ [] →
  simulate_hours car_reqs capacity price_dict initial_soc sessions hours s = Some s' →
  Qeq_bool capacity 0 = false.
Proof.
  destruct hours as [|h rest]; [done|]. intros _ Hrun. simpl in Hrun.
  unfold simulate_hour in Hrun. by destruct (Qeq_bool capacity 0).
Qed.

(** X10. The simulator returns a result exactly when every vehicle that
    is a key of the schedule is in the roster with a capacity different
    from 0; otherwise the roster lookup of line 132 or the division of
    line 153 raises. *)
Theorem X10_simulator_returns_iff sched cars_dict price_dict energy_needs initial_soc :
  is_Some (compute_costs_and_soc sched cars_dict price_dict energy_needs initial_soc) ↔
  ∀ car_id sessions, sched !! car_id = Some sessions →
    ∃ c, cars_dict !! car_id = Some c ∧ ¬ (capacity_kWh c == 0)%Q.
Proof.
  split.
  - intros [[[cost_summary final_soc] hourly_soc] Hrun] car_id sessions Hs.
    destruct (compute_costs_and_soc_car _ _ _ _ _ _ _ _ car_id Hrun) as [_ Hcar].
    rewrite Hs in Hcar. destruct Hcar as (s & Hsim & _).
    unfold simulate_car in Hsim. destruct (cars_dict !! car_id) as [c|]; [|done].
    exists c. split; [done|]. apply Qeq_bool_false.
    eapply simulate_hours_capacity; [|exact Hsim]. by vm_compute.
  - intros Hok. apply compute_costs_and_soc_total. intros car_id sessions Hs.
    destruct (Hok _ _ Hs) as (c & Hc & Hcap). exists c. split; [done|].
    by apply Qeq_bool_false.
Qed.

(** The cost record of an hour, if the scheduled power is positive. *)
Definition cost_at (sessions : list session) (price_dict : gmap Z Q) (hour : Z)
    : option cost_record :=
  if Qlt_bool 0 (session_power sessions hour)
  then Some (day_index hour, hour,
             (session_power sessions hour * default fallback_price (price_dict !! hour))%Q)
  else None.

Lemma simulate_hours_costs car_reqs capacity price_dict initial_soc sessions hours s s' :
  simulate_hours car_reqs capacity price_dict initial_soc sessions hours s = Some s' →
  costs s' = costs s ++ omap (cost_at sessions price_dict) hours.
Proof.
  revert s. induction hours as [|h rest IH]; intros s Hrun; simpl in Hrun.
  - injection Hrun as <-. by rewrite app_nil_r.
  - destruct (simulate_hour car_reqs capacity price_dict initial_soc sessions s h)
      as [s1|] eqn:E1; [|done].
    simpl in Hrun. rewrite (IH _ Hrun).
    unfold simulate_hour in E1. destruct (Qeq_bool capacity 0); [done|].
    injection E1 as <-. simpl. unfold cost_at.
    destruct (Qlt_bool 0 (session_power sessions h)); simpl; [by rewrite <- app_assoc | done].
Qed.

Lemma compute_costs_and_soc_costs sched cars_dict price_dict energy_needs initial_soc
    cost_summary final_soc hourly_soc car_id sessions :
  compute_costs_and_soc sched cars_dict price_dict energy_needs initial_soc
    = Some (cost_summary, final_soc, hourly_soc) →
  sched !! car_id = Some sessions →
  default [] (cost_summary !! car_id) = omap (cost_at sessions price_dict) sim_hours.
Proof.
  intros Hrun Hs.
  destruct (compute_costs_and_soc_car _ _ _ _ _ _ _ _ car_id Hrun) as [_ Hcar].
  rewrite Hs in Hcar. destruct Hcar as (s & Hsim & _).
  assert (costs s = omap (cost_at sessions price_dict) sim_hours) as Hcosts.
  { unfold simulate_car in Hsim. destruct (cars_dict !! car_id) as [c|]; [|done].
    by apply simulate_hours_costs in Hsim. }
  unfold compute_costs_and_soc in Hrun. case_decide as Hall; [|done].
  injection Hrun as <- _ _.
  rewrite !lookup_omap, map_lookup_imap, Hs. cbn -[simulate_car]. rewrite Hsim.
  cbn -[sim_hours]. rewrite <- Hcosts. by destruct (costs s).
Qed.

(** X11. The cost records of a scheduled vehicle are exactly: one record
    for every hour of [[18, 168)] at which its scheduled power is
    positive, with the hour's day index and the cost power x price, the
    price being 0.40 when the hour is missing from the price table.  A
    session outside [[18, 168)] is never billed. *)
Theorem X11_cost_records sched cars_dict price_dict energy_needs initial_soc
    cost_summary final_soc hourly_soc car_id sessions d h cost :
  compute_costs_and_soc sched cars_dict price_dict energy_needs initial_soc
    = Some (cost_summary, final_soc, hourly_soc) →
  sched !! car_id = Some sessions →
  ((d, h, cost) : cost_record) ∈ default [] (cost_summary !! car_id) ↔
  18 ≤ h < 168 ∧ d = day_index h ∧ (0 < session_power sessions h)%Q ∧
  cost = (session_power sessions h *
          match price_dict !! h with Some price => price | None => 40 # 100 end)%Q.
Proof.
  intros Hrun Hs. rewrite (compute_costs_and_soc_costs _ _ _ _ _ _ _ _ _ _ Hrun Hs).
  rewrite list_elem_of_omap. unfold cost_at, sim_hours. split.
  - intros (h0 & Hh0 & Hc). apply elem_of_seqZ in Hh0.
    destruct (Qlt_bool 0 (session_power sessions h0)) eqn:E; [|done].
    injection Hc as <- <- <-. apply Qlt_bool_true in E.
    split; [lia|]. split; [done|]. split; [done|]. by destruct (price_dict !! h0).
  - intros (Hh & -> & Hp & ->). exists h. split; [apply elem_of_seqZ; lia|].
    apply Qlt_bool_true in Hp. rewrite Hp. by destruct (price_dict !! h).
Qed.

Lemma X11_cost_records_witness :
  compute_costs_and_soc (schedule OneVehicle.final_state) OneVehicle.cars_dict ∅
    OneVehicle.energy_needs OneVehicle.initial_soc
    = Some (OneVehicle.simulation.1.1, OneVehicle.simulation.1.2, OneVehicle.simulation.2) ∧
  ((0, 18, (11 * (40 # 100))%Q) : cost_record)
    ∈ default [] (OneVehicle.simulation.1.1 !! "car1").
Proof.
  assert (compute_costs_and_soc (schedule OneVehicle.final_state) OneVehicle.cars_dict ∅
            OneVehicle.energy_needs OneVehicle.initial_soc
          = Some (OneVehicle.simulation.1.1, OneVehicle.simulation.1.2,
                  OneVehicle.simulation.2)) as Hsim by (vm_compute; reflexivity).
  split; [exact Hsim|].
  apply (X11_cost_records _ _ _ _ _ _ _ _ "car1"
           (sessions_of (schedule OneVehicle.final_state) "car1") 0 18 _ Hsim).
  - vm_compute. reflexivity.
  - split; [lia|]. split; [reflexivity|]. split; vm_compute; reflexivity.
Defined.
